(** * The rebuild cache of the Tailwind CSS PostCSS plugin

    A shallow embedding of [tailwindcss], [DefaultMap], [createCompiler],
    the [OnceExit] pass and [optimizeCss], followed by the properties of
    the rebuild strategy, the dependency clock and the optimisation gate.

    Conventions of the embedding.
    - [mtimeMs] is a JS number that the code only ever compares with
      [===]; it is modelled as an integer.
    - The collaborators ([compile], [Scanner], [build], lightningcss's
      [transform], [fs.statSync], [path]) are not part of the plugin; a
      [World] record gives their answers.  [compile] and [build] may
      throw; [statSync] is called with [throwIfNoEntry: false] and
      answers with a time or with nothing; the scanner, [transform]
      (run with [errorRecovery: true]) and [postcss.parse] return.
    - The PostCSS root is modelled by its text: [root.toString()] reads
      it and [root.removeAll(); root.append(postcss.parse(s))] sets it.
    - [env.DEBUG && console.time(...)] lines have no effect on the state
      and are left out.
    - Every call to a collaborator is recorded, in order, in a log. *)

From Stdlib Require Import ZArith.
From stdpp Require Import gmap strings list fin_maps.

Local Open Scope string_scope.
Local Open Scope list_scope.

(** ** Data model *)

Definition Error := string.

Record Glob := { glob_base : string; glob_pattern : string }.

(** What [compile] resolves to: an object with [globs] and [build].  The
    identity of the JS object is its allocation number [handle_id]. *)
Record Handle := {
  handle_id : nat;
  handle_css : string;
  handle_base : string;
  globs : list Glob;
}.

(** The value the [DefaultMap] factory of [tailwindcss] produces. *)
Record Context := {
  mtimes : gmap string Z;
  compiler : option Handle;
  css : string;
  optimizedCss : string;
  fullRebuildPaths : list string;
}.

Inductive RebuildStrategy := full | incremental.

Inductive Message :=
| dependency (plugin file : string) (parent : option string)
| dir_dependency (plugin dir glob : string) (parent : option string)
| other_message (type plugin : string).

Inductive OptimizeOption :=
| OptimizeBool (b : bool)
| OptimizeObject (minify : option bool).

Record PluginOptions := {
  opt_base : option string;
  opt_optimize : option OptimizeOption;
}.

Inductive Feature := Nesting | LogicalProperties.

Record TransformOptions := {
  t_filename : string;
  t_minify : bool;
  t_sourceMap : bool;
  t_customMedia : bool;
  t_deepSelectorCombinator : bool;
  t_include : Feature;
  t_exclude : Feature;
  t_safari : Z;
  t_errorRecovery : bool;
}.

Record ScanResult := {
  scan_candidates : list string;
  scan_files : list string;
  scan_globs : list Glob;
}.

(** The collaborators, as they answer during one invocation. *)
Record World := {
  cwd : string;
  NODE_ENV : option string;
  statSync : string → option Z;
  dirname_resolve : string → string;
  compile : string → string → list string * (Error + list Glob);
  scan : string → list Glob → ScanResult;
  build : Handle → list string → Error + string;
  transform : TransformOptions → string → string;
}.

Inductive Event :=
| EvClearRequireCache (paths : list string)
| EvCompile (source base : string)
| EvScan (base : string) (sources : list Glob)
| EvBuild (handle : Handle) (candidates : list string)
| EvTransform (options : TransformOptions) (input : string).

(** What one PostCSS run hands to the plugin: the root, [result.opts.from]
    and the messages other plugins pushed before. *)
Record Request := {
  req_root : string;
  req_from : option string;
  req_messages : list Message;
}.

(** The closure of [tailwindcss]: [base] and [optimize]; the [cache] it
    also closes over is mutable and lives in the [Store]. *)
Record Plugin := {
  base : string;
  optimize : OptimizeOption;
}.

Record Store := {
  cache : gmap string Context;
  allocated : nat;
}.

(** ** [DefaultMap] *)

Definition factory : Context :=
  {| mtimes := ∅; compiler := None; css := ""; optimizedCss := "";
     fullRebuildPaths := [] |}.

Definition DefaultMap_get (key : string) (m : gmap string Context)
  : Context * gmap string Context :=
  match m !! key with
  | Some value => (value, m)
  | None => (factory, <[key := factory]> m)
  end.

(** ** [tailwindcss]: the options *)

Definition truthy (o : OptimizeOption) : bool :=
  match o with
  | OptimizeBool b => b
  | OptimizeObject _ => true
  end.

Definition tailwindcss (w : World) (opts : option PluginOptions) : Plugin :=
  let opts := default {| opt_base := None; opt_optimize := None |} opts in
  {| base := default (cwd w) (opt_base opts);
     optimize :=
       default (OptimizeBool (bool_decide (NODE_ENV w = Some "production")))
               (opt_optimize opts) |}.

(** ** [optimizeCss] *)

Definition transform_options (minify : option bool) : TransformOptions :=
  {| t_filename := "input.css";
     t_minify := default false minify;
     t_sourceMap := false;
     t_customMedia := true;
     t_deepSelectorCombinator := true;
     t_include := Nesting;
     t_exclude := LogicalProperties;
     t_safari := Z.lor (Z.shiftl 16 16) (Z.shiftl 4 8);
     t_errorRecovery := true |}.

Definition optimizeCss (w : World) (input : string) (minify : option bool) : string :=
  transform w (transform_options minify) input.

(** The [minify] argument [OnceExit] passes:
    [typeof optimize === 'object' ? optimize.minify : true]. *)
Definition minify_of (o : OptimizeOption) : option bool :=
  match o with
  | OptimizeObject m => m
  | OptimizeBool _ => Some true
  end.

(** ** The state of one pass and its monad *)

Record Pass := {
  context : Context;
  messages : list Message;
  root : string;
  rebuildStrategy : option RebuildStrategy;
  log : list Event;
  fresh : nat;
}.

Definition M (A : Type) : Type := Pass → Pass * (Error + A).

#[global] Instance M_ret : MRet M := λ A x p, (p, inr x).
#[global] Instance M_bind : MBind M := λ A B f m p,
  match m p with
  | (p', inr x) => f x p'
  | (p', inl e) => (p', inl e)
  end.

Definition throw {A} (e : Error) : M A := λ p, (p, inl e).
Definition gets {A} (f : Pass → A) : M A := λ p, (p, inr (f p)).
Definition modify (f : Pass → Pass) : M unit := λ p, (f p, inr tt).

Definition with_context (f : Context → Context) (p : Pass) : Pass :=
  {| context := f (context p); messages := messages p; root := root p;
     rebuildStrategy := rebuildStrategy p; log := log p; fresh := fresh p |}.

Definition set_mtimes (m : gmap string Z) (c : Context) : Context :=
  {| mtimes := m; compiler := compiler c; css := css c;
     optimizedCss := optimizedCss c; fullRebuildPaths := fullRebuildPaths c |}.
Definition set_compiler (h : option Handle) (c : Context) : Context :=
  {| mtimes := mtimes c; compiler := h; css := css c;
     optimizedCss := optimizedCss c; fullRebuildPaths := fullRebuildPaths c |}.
Definition set_css (s : string) (c : Context) : Context :=
  {| mtimes := mtimes c; compiler := compiler c; css := s;
     optimizedCss := optimizedCss c; fullRebuildPaths := fullRebuildPaths c |}.
Definition set_optimizedCss (s : string) (c : Context) : Context :=
  {| mtimes := mtimes c; compiler := compiler c; css := css c;
     optimizedCss := s; fullRebuildPaths := fullRebuildPaths c |}.
Definition set_fullRebuildPaths (l : list string) (c : Context) : Context :=
  {| mtimes := mtimes c; compiler := compiler c; css := css c;
     optimizedCss := optimizedCss c; fullRebuildPaths := l |}.

Definition push_messages (l : list Message) (p : Pass) : Pass :=
  {| context := context p; messages := messages p ++ l; root := root p;
     rebuildStrategy := rebuildStrategy p; log := log p; fresh := fresh p |}.
Definition set_root (s : string) (p : Pass) : Pass :=
  {| context := context p; messages := messages p; root := s;
     rebuildStrategy := rebuildStrategy p; log := log p; fresh := fresh p |}.
Definition set_rebuildStrategy (s : RebuildStrategy) (p : Pass) : Pass :=
  {| context := context p; messages := messages p; root := root p;
     rebuildStrategy := Some s; log := log p; fresh := fresh p |}.
Definition record (e : Event) (p : Pass) : Pass :=
  {| context := context p; messages := messages p; root := root p;
     rebuildStrategy := rebuildStrategy p; log := log p ++ [e];
     fresh := fresh p |}.
Definition allocate : M nat := λ p,
  ({| context := context p; messages := messages p; root := root p;
      rebuildStrategy := rebuildStrategy p; log := log p;
      fresh := S (fresh p) |}, inr (fresh p)).

(** ** The [OnceExit] pass *)

Definition plugin_name : string := "@tailwindcss/postcss".

(** The body of the loop over [files]: one [statSync], then either the
    missing-file branch or the comparison with the recorded time. *)
Definition track_file (w : World) (inputFile : string)
    (acc : RebuildStrategy * gmap string Z) (file : string)
  : RebuildStrategy * gmap string Z :=
  match statSync w file with
  | None => if decide (file = inputFile) then (full, acc.2) else acc
  | Some changedTime =>
      if decide (acc.2 !! file = Some changedTime) then acc
      else (full, <[file := changedTime]> acc.2)
  end.

Definition track_files (w : World) (inputFile : string) (files : list string)
    (acc : RebuildStrategy * gmap string Z) : RebuildStrategy * gmap string Z :=
  foldl (track_file w inputFile) acc files.

(** [result.messages.flatMap(...)]: the files of the dependency messages. *)
Definition dependency_files (ms : list Message) : list string :=
  flat_map (λ m, match m with dependency _ file _ => [file] | _ => [] end) ms.

Section pass.
Context (plugin : Plugin) (w : World) (rq : Request).

Definition inputFile : string := default "" (req_from rq).
Definition inputBasePath : string := dirname_resolve w inputFile.

Definition file_message (file : string) : Message :=
  dependency plugin_name file (req_from rq).
Definition glob_message (g : Glob) : Message :=
  dir_dependency plugin_name (glob_base g) (glob_pattern g) (req_from rq).

Definition createCompiler : M Handle :=
  paths ← gets (fullRebuildPaths ∘ context);
  modify (record (EvClearRequireCache paths));;
  modify (with_context (set_fullRebuildPaths []));;
  source ← gets root;
  modify (record (EvCompile source inputBasePath));;
  (* every [onDependency] call pushes one path *)
  modify (with_context (λ c,
    set_fullRebuildPaths
      (fullRebuildPaths c ++ (compile w source inputBasePath).1) c));;
  match (compile w source inputBasePath).2 with
  | inl e => throw e
  | inr gs =>
      id ← allocate;
      mret {| handle_id := id; handle_css := source;
              handle_base := inputBasePath; globs := gs |}
  end.

(** [context.compiler ??= await createCompiler()] *)
Definition setup_compiler : M unit :=
  c ← gets (compiler ∘ context);
  match c with
  | Some _ => mret tt
  | None =>
      h ← createCompiler;
      modify (with_context (set_compiler (Some h)))
  end.

(** The block "Track file modification times to CSS files". *)
Definition track_modification_times : M unit :=
  modify (set_rebuildStrategy incremental);;
  paths ← gets (fullRebuildPaths ∘ context);
  modify (push_messages (file_message <$> paths));;
  ms ← gets messages;
  let files := dependency_files ms ++ [inputFile] in
  old ← gets (mtimes ∘ context);
  let tracked := track_files w inputFile files (incremental, old) in
  modify (set_rebuildStrategy tracked.1);;
  modify (with_context (set_mtimes tracked.2)).

(** "Look for candidates used to generate the CSS", with the messages
    for the scanned files and globs. *)
Definition scan_for_candidates : M (list string) :=
  c ← gets (compiler ∘ context);
  match c with
  | None => throw "TypeError"
  | Some h =>
      modify (record (EvScan (base plugin) (globs h)));;
      let scanner := scan w (base plugin) (globs h) in
      modify (push_messages (file_message <$> scan_files scanner));;
      modify (push_messages (glob_message <$> scan_globs scanner));;
      mret (scan_candidates scanner)
  end.

(** [if (rebuildStrategy === 'full') context.compiler = await createCompiler()] *)
Definition rebuild_if_full : M unit :=
  s ← gets rebuildStrategy;
  match s with
  | Some full =>
      h ← createCompiler;
      modify (with_context (set_compiler (Some h)))
  | _ => mret tt
  end.

(** [css = context.compiler.build(candidates)] *)
Definition build_css (candidates : list string) : M string :=
  c ← gets (compiler ∘ context);
  match c with
  | None => throw "TypeError"
  | Some h =>
      modify (record (EvBuild h candidates));;
      match build w h candidates with
      | inl e => throw e
      | inr built => mret built
      end
  end.

Definition optimizeCss_call (input : string) (minify : option bool) : M string :=
  modify (record (EvTransform (transform_options minify) input));;
  mret (optimizeCss w input minify).

(** "Replace CSS" and "Update PostCSS AST". *)
Definition replace_css (built : string) : M unit :=
  previous ← gets (css ∘ context);
  (if bool_decide (built ≠ previous) && truthy (optimize plugin) then
     optimized ← optimizeCss_call built (minify_of (optimize plugin));
     modify (with_context (set_optimizedCss optimized))
   else mret tt);;
  modify (with_context (set_css built));;
  c ← gets context;
  modify (set_root (if truthy (optimize plugin) then optimizedCss c else css c)).

Definition OnceExit_body : M unit :=
  setup_compiler;;
  track_modification_times;;
  candidates ← scan_for_candidates;
  rebuild_if_full;;
  built ← build_css candidates;
  replace_css built.

End pass.

(** ** One invocation on the plugin's cache, and sequences of them *)

Record Result := {
  res_store : Store;
  res_pass : Pass;
  res_outcome : Error + unit;
}.

Definition initial_pass (rq : Request) (c : Context) (n : nat) : Pass :=
  {| context := c; messages := req_messages rq; root := req_root rq;
     rebuildStrategy := None; log := []; fresh := n |}.

(** [let context = cache.get(inputFile)] aliases the object stored in
    the map: what the pass does to [context] is what the map holds
    afterwards, whether the pass returns or throws. *)
Definition OnceExit (plugin : Plugin) (w : World) (rq : Request) (st : Store)
  : Result :=
  let got := DefaultMap_get (inputFile rq) (cache st) in
  let ran := OnceExit_body plugin w rq (initial_pass rq got.1 (allocated st)) in
  {| res_store := {| cache := <[inputFile rq := context ran.1]> got.2;
                     allocated := fresh ran.1 |};
     res_pass := ran.1;
     res_outcome := ran.2 |}.

Fixpoint invocations (plugin : Plugin) (l : list (World * Request)) (st : Store)
  : list Result :=
  match l with
  | [] => []
  | i :: l =>
      let r := OnceExit plugin i.1 i.2 st in
      r :: invocations plugin l (res_store r)
  end.

Definition empty_store : Store := {| cache := ∅; allocated := 0 |}.

(** The cache entry of a request, as [cache.get] returns it. *)
Definition entry (rq : Request) (st : Store) : Context :=
  (DefaultMap_get (inputFile rq) (cache st)).1.

(** ** Reading the log *)

Definition is_compile (e : Event) : bool :=
  match e with EvCompile _ _ => true | _ => false end.
Definition is_scan (e : Event) : bool :=
  match e with EvScan _ _ => true | _ => false end.
Definition is_build (e : Event) : bool :=
  match e with EvBuild _ _ => true | _ => false end.
Definition is_transform (e : Event) : bool :=
  match e with EvTransform _ _ => true | _ => false end.

Definition calls (f : Event → bool) (l : list Event) : nat :=
  length (List.filter f l).

(** ** Vocabulary for the statements *)

(** Whether the body of the loop, run at [file] against the clock [mt],
    takes one of its two [rebuildStrategy = 'full'] assignments. *)
Definition forces_full (w : World) (inputFile : string) (mt : gmap string Z)
    (file : string) : bool :=
  match statSync w file with
  | None => bool_decide (file = inputFile)
  | Some t => bool_decide (mt !! file ≠ Some t)
  end.

(** [context.fullRebuildPaths] when the loop starts: the stored paths when
    the entry has a compiler, what [compile] reports otherwise. *)
Definition tracked_paths (w : World) (rq : Request) (c : Context) : list string :=
  match compiler c with
  | Some _ => fullRebuildPaths c
  | None => (compile w (req_root rq) (inputBasePath w rq)).1
  end.

(** The list [files] the loop runs over. *)
Definition checked_files (w : World) (rq : Request) (c : Context) : list string :=
  dependency_files (req_messages rq) ++ tracked_paths w rq c ++ [inputFile rq].

(** The pass gets past [context.compiler ??= await createCompiler()]. *)
Definition setup_succeeds (w : World) (rq : Request) (c : Context) : Prop :=
  is_Some (compiler c) ∨
  ∃ gs, (compile w (req_root rq) (inputBasePath w rq)).2 = inr gs.

(** What the loop computes for an entry: the strategy and the clock. *)
Definition decision (w : World) (rq : Request) (c : Context)
  : RebuildStrategy * gmap string Z :=
  track_files w (inputFile rq) (checked_files w rq c) (incremental, mtimes c).

(** One pass on an entry [c], with [n] handles allocated before. *)
Definition pass_on (plugin : Plugin) (w : World) (rq : Request) (c : Context)
    (n : nat) : Pass * (Error + unit) :=
  OnceExit_body plugin w rq (initial_pass rq c n).

(** The entry [c] is up to date for [i]: it has a compiler and no file
    the loop would check forces a full rebuild. *)
Definition settled (i : World * Request) (c : Context) : Prop :=
  is_Some (compiler c) ∧
  ∀ file, file ∈ checked_files i.1 i.2 c →
          forces_full i.1 (inputFile i.2) (mtimes c) file = false.

(** The same loop on the checked files other than [p]. *)
Definition decision_without (p : string) (w : World) (rq : Request) (c : Context)
  : RebuildStrategy * gmap string Z :=
  track_files w (inputFile rq)
    (filter (λ file, file ≠ p) (checked_files w rq c)) (incremental, mtimes c).

(** Handles in the cache were allocated before the next free number. *)
Definition store_wf (st : Store) : Prop :=
  ∀ key c h, cache st !! key = Some c → compiler c = Some h →
             handle_id h < allocated st.

(** A later invocation [i] on the input of [first] during which nothing
    changed for [files], the files the first pass checks (the entry point
    and the tracked dependencies): the same input identity, the same
    answer of [statSync] on each of these files, and no dependency
    message for a file that is not one of them.  Every other path of the
    disk may change. *)
Definition unchanged (files : list string) (first i : World * Request) : Prop :=
  inputFile i.2 = inputFile first.2 ∧
  (∀ file, file ∈ files → statSync i.1 file = statSync first.1 file) ∧
  dependency_files (req_messages i.2) ⊆ files.

(** The globs the scanner is given: those of the handle the entry holds
    when the scan starts, which is the one the setup created when the
    entry had none. *)
Definition scanned_globs (w : World) (rq : Request) (c : Context) : list Glob :=
  match compiler c with
  | Some h => globs h
  | None =>
      match (compile w (req_root rq) (inputBasePath w rq)).2 with
      | inr gs => gs
      | inl _ => []
      end
  end.

(** The messages of a pass that gets to the scan. *)
Definition manifest (plugin : Plugin) (w : World) (rq : Request) (c : Context)
  : list Message :=
  let scanner := scan w (base plugin) (scanned_globs w rq c) in
  req_messages rq
  ++ (file_message rq <$> tracked_paths w rq c)
  ++ (file_message rq <$> scan_files scanner)
  ++ (glob_message rq <$> scan_globs scanner).

(** The cached pair is in step: [optimizedCss] is the transform [t] of
    [css], or nothing was built yet and both are empty. *)
Definition in_step (plugin : Plugin) (t : TransformOptions → string → string)
    (c : Context) : Prop :=
  (css c = "" ∧ optimizedCss c = "") ∨
  optimizedCss c = t (transform_options (minify_of (optimize plugin))) (css c).

Definition store_in_step (plugin : Plugin)
    (t : TransformOptions → string → string) (st : Store) : Prop :=
  ∀ key c, cache st !! key = Some c → in_step plugin t c.

(** ** The upgrade tool: [migrateContents] and [migrate]

    PostCSS, the codemods and [path.resolve] are collaborators; [process]
    stands for [postcss().use(...)...process(contents, { from }).then(r =>
    r.css)] on the listed plugins.  The disk maps the paths of the files
    that can be read and written to their contents. *)

Record MigrateOptions := { newPrefix : option string }.

Inductive Codemod :=
| migrateAtApply
| migrateAtLayerUtilities
| migrateMissingLayers
| migrateTailwindDirectives (options : MigrateOptions)
| formatNodes.

Record Tool := {
  tool_cwd : string;
  path_resolve : string → string → string;
  process : list Codemod → string → option string → Error + string;
}.

Definition migrateContents (tl : Tool) (contents : string)
    (options : MigrateOptions) (file : option string) : Error + string :=
  process tl
    [migrateAtApply; migrateAtLayerUtilities; migrateMissingLayers;
     migrateTailwindDirectives options; formatNodes]
    contents file.

Definition migrate (tl : Tool) (file : string) (options : MigrateOptions)
    (disk : gmap string string) : gmap string string * (Error + unit) :=
  let fullPath := path_resolve tl (tool_cwd tl) file in
  match disk !! fullPath with
  | None => (disk, inl "ENOENT")
  | Some contents =>
      match migrateContents tl contents options (Some fullPath) with
      | inl e => (disk, inl e)
      | inr migrated => (<[fullPath := migrated]> disk, inr ())
      end
  end.

(** ** A small project to run the definitions on *)

Module Demo.

Definition disk (file : string) : option Z :=
  if decide (file = "/app/a.css") then Some 100%Z
  else if decide (file = "/app/b.css") then Some 200%Z
  else None.

Definition app_globs : list Glob :=
  [{| glob_base := "/app"; glob_pattern := "**/*.html" |}].

Definition make (files : string → option Z) (imports candidates : list string)
    (builder : list string → Error + string) : World :=
  {| cwd := "/app";
     NODE_ENV := Some "production";
     statSync := files;
     dirname_resolve := λ _, "/app";
     compile := λ _ _, (imports, inr app_globs);
     scan := λ b gs, {| scan_candidates := candidates;
                        scan_files := ["/app/index.html"];
                        scan_globs := gs |};
     build := λ _, builder;
     transform := λ o input, if t_minify o then "min:" +:+ input else input |}.

Definition join (candidates : list string) : Error + string :=
  inr (String.concat " " candidates).

(** [a.css] imports [b.css]; the sources use [flex] and [p-4]. *)
Definition world : World := make disk ["/app/b.css"] ["flex"; "p-4"] join.

(** [b.css] was saved again. *)
Definition touched : World :=
  make (λ file, if decide (file = "/app/b.css") then Some 201%Z else disk file)
       ["/app/b.css"] ["flex"; "p-4"] join.

(** [b.css] was deleted. *)
Definition deleted : World :=
  make (λ file, if decide (file = "/app/b.css") then None else disk file)
       ["/app/b.css"] ["flex"; "p-4"] join.

(** The build throws. *)
Definition failing : World :=
  make disk ["/app/b.css"] ["flex"; "p-4"] (λ _, inl "CompileError").

(** No candidate is found and the stylesheet is empty. *)
Definition blank : World := make disk ["/app/b.css"] [] join.

(** [a.css] was edited and now imports [c.css] as well. *)
Definition grown : World :=
  make (λ file, if decide (file = "/app/a.css") then Some 101%Z
                else if decide (file = "/app/c.css") then Some 300%Z
                else disk file)
       ["/app/b.css"; "/app/c.css"] ["flex"; "p-4"] join.

Definition request : Request :=
  {| req_root := "@import './b.css';"; req_from := Some "/app/a.css";
     req_messages := [] |}.

(** CSS handed to PostCSS without a [from]. *)
Definition pathless : Request :=
  {| req_root := ".btn { color: red }"; req_from := None;
     req_messages := [] |}.

(** [tailwindcss()] in production, and [tailwindcss({ optimize: false })]. *)
Definition plugin : Plugin := tailwindcss world None.
Definition plain : Plugin :=
  tailwindcss world
    (Some {| opt_base := None; opt_optimize := Some (OptimizeBool false) |}).

(** The handle the first pass on [request] leaves in the cache. *)
Definition handle : Handle :=
  {| handle_id := 1; handle_css := "@import './b.css';";
     handle_base := "/app"; globs := app_globs |}.

(** The store after one pass on [request] in [world]. *)
Definition warm : Store := res_store (OnceExit plugin world request empty_store).

(** A template that is scanned, not tracked, was saved again. *)
Definition retemplated : World :=
  make (λ file, if decide (file = "/app/index.html") then Some 999%Z
                else disk file)
       ["/app/b.css"] ["flex"; "p-4"] join.

(** [b.css] was saved again and the stylesheet no longer compiles. *)
Definition invalid : World :=
  {| cwd := "/app";
     NODE_ENV := Some "production";
     statSync := λ file, if decide (file = "/app/b.css") then Some 201%Z
                         else disk file;
     dirname_resolve := λ _, "/app";
     compile := λ _ _, (["/app/b.css"], inl "CssSyntaxError");
     scan := λ b gs, {| scan_candidates := ["flex"; "p-4"];
                        scan_files := ["/app/index.html"];
                        scan_globs := gs |};
     build := λ _, join;
     transform := λ o input, if t_minify o then "min:" +:+ input else input |}.

(** A tool whose codemods put a prefix before every stylesheet and
    refuse an empty one. *)
Definition tool : Tool :=
  {| tool_cwd := "/app";
     path_resolve := λ dir file, dir +:+ "/" +:+ file;
     process := λ _ contents _,
       if decide (contents = "") then inl "CssSyntaxError"
       else inr ("@import 'tailwindcss';" +:+ contents) |}.

Definition sources : gmap string string :=
  {[ "/app/a.css" := "@tailwind base;"; "/app/empty.css" := "" ]}.

End Demo.

(** ** The loop over the checked files *)

Section track.
Context (w : World) (i : string).
Implicit Types (mt : gmap string Z) (s : RebuildStrategy) (files : list string).

Lemma track_files_cons f files acc :
  track_files w i (f :: files) acc = track_files w i files (track_file w i acc f).
Proof. reflexivity. Qed.

Lemma track_file_quiet s mt f :
  forces_full w i mt f = false → track_file w i (s, mt) f = (s, mt).
Proof.
  unfold forces_full, track_file; simpl.
  destruct (statSync w f) as [t|].
  - intros H%bool_decide_eq_false. destruct (decide _) as [|n]; [done|].
    exfalso. apply H. done.
  - intros H%bool_decide_eq_false. by rewrite decide_False.
Qed.

Lemma track_file_forced s mt f :
  forces_full w i mt f = true → (track_file w i (s, mt) f).1 = full.
Proof.
  unfold forces_full, track_file; simpl.
  destruct (statSync w f) as [t|]; intros H%bool_decide_eq_true.
  - by rewrite decide_False.
  - by rewrite decide_True.
Qed.

Lemma track_file_other s mt f p :
  p ≠ f → (track_file w i (s, mt) f).2 !! p = mt !! p.
Proof.
  intros Hne. unfold track_file; simpl.
  destruct (statSync w f) as [t|]; repeat case_decide; simpl; try done.
  by rewrite lookup_insert_ne.
Qed.

Lemma track_file_same s mt f :
  (track_file w i (s, mt) f).2 !! f =
    match statSync w f with Some t => Some t | None => mt !! f end.
Proof.
  unfold track_file; simpl.
  destruct (statSync w f) as [t|]; repeat case_decide; simpl; try done.
  by rewrite lookup_insert_eq.
Qed.

Lemma track_files_full mt files : (track_files w i files (full, mt)).1 = full.
Proof.
  revert mt. induction files as [|f files IH]; intros mt; [done|].
  rewrite track_files_cons. unfold track_file; simpl.
  destruct (statSync w f); repeat case_decide; apply IH.
Qed.

(** The strategy after the loop is 'full' exactly when it was before or
    some file of the list forces it against the clock the loop started
    with. *)
Lemma track_files_strategy s mt files :
  (track_files w i files (s, mt)).1 = full ↔
  s = full ∨ ∃ f, f ∈ files ∧ forces_full w i mt f = true.
Proof.
  revert s mt. induction files as [|f files IH]; intros s mt.
  - simpl. split; [by left|]. intros [?|(f & Hf & _)]; [done|].
    by apply elem_of_nil in Hf.
  - rewrite track_files_cons.
    destruct (forces_full w i mt f) eqn:Hf.
    + pose proof (track_file_forced s mt f Hf) as Hfull.
      destruct (track_file w i (s, mt) f) as [s' mt']. simpl in Hfull.
      subst s'. rewrite track_files_full. split; [|done].
      intros _. right. exists f. split; [apply list_elem_of_here|done].
    + rewrite (track_file_quiet s mt f Hf), IH. split.
      * intros [?|(g & Hg & Hforce)]; [by left|].
        right. exists g. split; [by apply list_elem_of_further|done].
      * intros [?|(g & Hg & Hforce)]; [by left|].
        apply elem_of_cons in Hg as [->|Hg]; [congruence|].
        right. by exists g.
Qed.

Lemma track_files_incremental mt files :
  (∀ f, f ∈ files → forces_full w i mt f = false) →
  track_files w i files (incremental, mt) = (incremental, mt).
Proof.
  revert mt. induction files as [|f files IH]; intros mt H; [done|].
  rewrite track_files_cons.
  rewrite track_file_quiet by (apply H, list_elem_of_here).
  apply IH. intros g Hg. by apply H, list_elem_of_further.
Qed.

(** The clock after the loop: the observed time for the files of the
    list that exist, the old entry for every other path. *)
Lemma track_files_clock s mt files p :
  (track_files w i files (s, mt)).2 !! p =
    match statSync w p with
    | Some t => if decide (p ∈ files) then Some t else mt !! p
    | None => mt !! p
    end.
Proof.
  revert s mt. induction files as [|f files IH]; intros s mt.
  - simpl. destruct (statSync w p); [|done].
    destruct (decide (p ∈ [])) as [H|]; [|done]. by apply elem_of_nil in H.
  - rewrite track_files_cons.
    destruct (track_file w i (s, mt) f) as [s' mt'] eqn:E.
    rewrite IH. destruct (decide (p = f)) as [->|Hne].
    + pose proof (track_file_same s mt f) as Hs. rewrite E in Hs. simpl in Hs.
      destruct (statSync w f) as [t|]; [|done].
      destruct (decide (f ∈ f :: files)) as [|n]; [by case_decide|].
      exfalso. apply n, list_elem_of_here.
    + pose proof (track_file_other s mt f p Hne) as Ho. rewrite E in Ho.
      simpl in Ho. rewrite Ho. destruct (statSync w p) as [t|]; [|done].
      destruct (decide (p ∈ files)) as [Hin|Hnin];
        destruct (decide (p ∈ f :: files)) as [Hin'|Hnin']; try done.
      * exfalso. by apply Hnin', list_elem_of_further.
      * apply elem_of_cons in Hin' as [?|?]; done.
Qed.

(** A file that does not force 'full' can be dropped from the list. *)
Lemma track_files_skip s mt files p :
  forces_full w i mt p = false →
  track_files w i files (s, mt) =
  track_files w i (filter (λ f, f ≠ p) files) (s, mt).
Proof.
  revert s mt. induction files as [|f files IH]; intros s mt Hp; [done|].
  rewrite track_files_cons.
  destruct (decide (f = p)) as [->|Hne].
  - rewrite filter_cons_False by (intros H; by apply H).
    rewrite track_file_quiet by done. by apply IH.
  - rewrite filter_cons_True by done. rewrite track_files_cons.
    pose proof (track_file_other s mt f p (not_eq_sym Hne)) as Ho.
    destruct (track_file w i (s, mt) f) as [s' mt']. simpl in Ho.
    apply IH. unfold forces_full in *. by rewrite Ho.
Qed.

End track.

(** ** Running the pass symbolically *)

Lemma dependency_files_app a b :
  dependency_files (a ++ b) = dependency_files a ++ dependency_files b.
Proof. apply flat_map_app. Qed.

Lemma dependency_files_file_message rq l :
  dependency_files (file_message rq <$> l) = l.
Proof.
  induction l as [|x l IH]; [done|].
  unfold dependency_files in *. simpl. by f_equal.
Qed.

#[local] Arguments track_files : simpl never.
#[local] Arguments dependency_files : simpl never.

Ltac unfold_pass :=
  unfold pass_on, OnceExit_body, setup_compiler, track_modification_times,
    scan_for_candidates, rebuild_if_full, build_css, replace_css,
    optimizeCss_call, createCompiler, initial_pass,
    mbind, M_bind, mret, M_ret, gets, modify, throw, allocate in *.

(** Case analysis on the innermost scrutinee the pass is stuck on. *)
Ltac pass_case :=
  match goal with
  | |- context [match ?x with _ => _ end] =>
      lazymatch x with
      | context [match _ with _ => _ end] => fail
      | _ =>
          match goal with
          | H : x = _ |- _ => rewrite H
          | _ => destruct x eqn:?
          end
      end
  end.

Ltac normalise_files :=
  unfold decision, checked_files, tracked_paths in *;
  repeat match goal with
    | H : compiler ?c = _ |- context [compiler ?c] => rewrite H
    | H : compiler ?c = _, H' : context [compiler ?c] |- _ =>
        lazymatch H' with H => fail | _ => rewrite H in H' end
    end;
  rewrite ?dependency_files_app, ?dependency_files_file_message,
    <- ?app_assoc in *.

Ltac run_pass :=
  unfold_pass; simpl in *; repeat (pass_case; simpl in * ); normalise_files.

Section pass_facts.
Context (plugin : Plugin) (w : World) (rq : Request) (c : Context) (n : nat).

Local Abbreviation ran := (pass_on plugin w rq c n).
Local Abbreviation compiled := (compile w (req_root rq) (inputBasePath w rq)).

Ltac use_decision :=
  repeat match goal with
    | H : (track_files _ _ _ _).1 = _ |- _ => rewrite H in *
    end.

(** Past the setup, the strategy and the clock are those of the loop. *)
Lemma pass_decision :
  setup_succeeds w rq c →
  rebuildStrategy ran.1 = Some (decision w rq c).1 ∧
  mtimes (context ran.1) = (decision w rq c).2.
Proof.
  intros [[h Hh]|[gs Hgs]]; run_pass; use_decision; done.
Qed.

(** When the setup throws, nothing but [fullRebuildPaths] has changed. *)
Lemma pass_setup_throws e :
  compiler c = None → compiled.2 = inl e →
  ran.2 = inl e ∧ rebuildStrategy ran.1 = None ∧
  log ran.1 = [EvClearRequireCache (fullRebuildPaths c);
               EvCompile (req_root rq) (inputBasePath w rq)] ∧
  compiler (context ran.1) = None ∧ mtimes (context ran.1) = mtimes c.
Proof. intros Hc He. run_pass. done. Qed.

(** However the pass throws, [css] and [optimizedCss] are as before. *)
Lemma pass_error_keeps_css e :
  ran.2 = inl e →
  css (context ran.1) = css c ∧ optimizedCss (context ran.1) = optimizedCss c.
Proof. run_pass; done. Qed.

(** The incremental path leaves the handle and its paths alone. *)
Lemma pass_incremental h :
  compiler c = Some h → (decision w rq c).1 = incremental →
  compiler (context ran.1) = Some h ∧
  fullRebuildPaths (context ran.1) = fullRebuildPaths c ∧
  fresh ran.1 = n ∧
  calls is_compile (log ran.1) = 0.
Proof. intros Hc Hd. run_pass; use_decision; done. Qed.

(** A pass that starts without a compiler and whose [compile] succeeds
    ends with a compiler and with the paths [compile] reports. *)
Lemma pass_first gs :
  compiler c = None → compiled.2 = inr gs →
  is_Some (compiler (context ran.1)) ∧
  fullRebuildPaths (context ran.1) = compiled.1.
Proof. intros Hc Hgs. run_pass; done. Qed.

(** The full path of an entry that has a compiler: scan, then
    [createCompiler], then the build on the handle just created. *)
Lemma pass_full h :
  compiler c = Some h → (decision w rq c).1 = full →
  ∃ rest,
    log ran.1 = EvScan (base plugin) (globs h)
                :: EvClearRequireCache (fullRebuildPaths c)
                :: EvCompile (req_root rq) (inputBasePath w rq) :: rest ∧
    match compiled.2 with
    | inl e => ran.2 = inl e ∧ rest = [] ∧ compiler (context ran.1) = Some h ∧
               fullRebuildPaths (context ran.1) = compiled.1
    | inr gs =>
        let created := {| handle_id := n; handle_css := req_root rq;
                          handle_base := inputBasePath w rq; globs := gs |} in
        compiler (context ran.1) = Some created ∧
        fullRebuildPaths (context ran.1) = compiled.1 ∧
        fresh ran.1 = S n ∧
        ∃ rest', rest = EvBuild created
                          (scan_candidates (scan w (base plugin) (globs h)))
                        :: rest'
    end.
Proof.
  intros Hc Hd. run_pass; use_decision; try done; eexists; split; try done;
    repeat split; try done; by eexists.
Qed.

Ltac in_log H :=
  repeat (apply elem_of_cons in H as [H|H]; try discriminate H);
  try (by apply elem_of_nil in H);
  simplify_eq;
  repeat match goal with
    | H1 : build w ?h ?cs = _, H2 : build w ?h ?cs = _ |- _ =>
        rewrite H1 in H2; simplify_eq
    end.

(** A build that throws ends the pass with its error, before [css] and
    [optimizedCss] are written and before any transform. *)
Lemma pass_build_throws h cs e :
  EvBuild h cs ∈ log ran.1 → build w h cs = inl e →
  ran.2 = inl e ∧
  css (context ran.1) = css c ∧ optimizedCss (context ran.1) = optimizedCss c ∧
  calls is_transform (log ran.1) = 0.
Proof.
  run_pass; intros Hin Hb; in_log Hin; done.
Qed.

Ltac use_gate Ho :=
  rewrite ?Ho in *;
  repeat match goal with
    | H : _ && truthy _ = _ |- _ => rewrite Ho in H
    | H : _ && false = true |- _ => by rewrite andb_false_r in H
    | H : _ && true = _ |- _ => rewrite andb_true_r in H
    | H : bool_decide _ = true |- _ => apply bool_decide_eq_true in H
    | H : bool_decide _ = false |- _ => apply bool_decide_eq_false in H
    end.

(** With [optimize] falsy, what the build returned is what is emitted. *)
Lemma pass_raw_output h cs built :
  truthy (optimize plugin) = false →
  EvBuild h cs ∈ log ran.1 → build w h cs = inr built →
  ran.2 = inr () ∧ root ran.1 = built ∧ css (context ran.1) = built ∧
  optimizedCss (context ran.1) = optimizedCss c ∧
  calls is_transform (log ran.1) = 0.
Proof.
  intros Ho. run_pass; intros Hin Hb; in_log Hin; use_gate Ho; done.
Qed.

(** With [optimize] truthy, a pass that returns ran the transform
    exactly when the built CSS differs from the cached one. *)
Lemma pass_gate :
  truthy (optimize plugin) = true → ran.2 = inr () →
  if decide (css (context ran.1) = css c) then
    calls is_transform (log ran.1) = 0 ∧
    optimizedCss (context ran.1) = optimizedCss c ∧
    root ran.1 = optimizedCss c
  else
    calls is_transform (log ran.1) = 1 ∧
    optimizedCss (context ran.1) =
      optimizeCss w (css (context ran.1)) (minify_of (optimize plugin)) ∧
    root ran.1 = optimizedCss (context ran.1).
Proof.
  intros Ho. run_pass; intros Hr; try discriminate Hr; use_gate Ho;
    case_decide; try done; exfalso; auto.
Qed.

(** A build that returns lets the pass return, with [css] what it built. *)
Lemma pass_build_returns h cs built :
  EvBuild h cs ∈ log ran.1 → build w h cs = inr built →
  ran.2 = inr () ∧ css (context ran.1) = built.
Proof. run_pass; intros Hin Hb; in_log Hin; done. Qed.

(** A missing file keeps the time the clock had for it. *)
Lemma pass_clock_missing p :
  statSync w p = None → mtimes (context ran.1) !! p = mtimes c !! p.
Proof.
  intros Hp.
  destruct (compiler c) as [h|] eqn:Hc;
    [|destruct compiled.2 as [e|gs] eqn:Hgs].
  - destruct pass_decision as [_ ->]; [left; by eexists|].
    unfold decision. by rewrite track_files_clock, Hp.
  - by destruct (pass_setup_throws e) as (_ & _ & _ & _ & ->).
  - destruct pass_decision as [_ ->]; [right; by eexists|].
    unfold decision. by rewrite track_files_clock, Hp.
Qed.

(** A checked file that does not force 'full' has no part in the
    decision. *)
Lemma pass_decision_without p :
  setup_succeeds w rq c →
  forces_full w (inputFile rq) (mtimes c) p = false →
  rebuildStrategy ran.1 = Some (decision_without p w rq c).1 ∧
  mtimes (context ran.1) = (decision_without p w rq c).2.
Proof.
  intros Hs Hp. destruct (pass_decision Hs) as [-> ->].
  unfold decision, decision_without.
  by rewrite (track_files_skip _ _ _ _ _ p Hp).
Qed.

(** Handles are numbered in the order of their creation. *)
Lemma pass_handles :
  (∀ h, compiler c = Some h → handle_id h < n) →
  (n ≤ fresh ran.1)%nat ∧
  ∀ h, compiler (context ran.1) = Some h → handle_id h < fresh ran.1.
Proof.
  intros Hold. run_pass; (split; [lia|]); intros h' Hh'; simplify_eq;
    try (simpl; lia); try (by apply Hold);
    try (assert (handle_id h' < n) by (by apply Hold); lia).
Qed.

End pass_facts.

(** ** The pass on the cache *)

Section on_cache.
Context (plugin : Plugin) (w : World) (rq : Request) (st : Store).

Local Abbreviation r := (OnceExit plugin w rq st).

Lemma OnceExit_pass :
  res_pass r = (pass_on plugin w rq (entry rq st) (allocated st)).1.
Proof. reflexivity. Qed.

Lemma OnceExit_outcome :
  res_outcome r = (pass_on plugin w rq (entry rq st) (allocated st)).2.
Proof. reflexivity. Qed.

Lemma OnceExit_lookup :
  cache (res_store r) !! inputFile rq = Some (context (res_pass r)).
Proof. unfold OnceExit; simpl. apply lookup_insert_eq. Qed.

Lemma OnceExit_entry rq' :
  inputFile rq' = inputFile rq →
  entry rq' (res_store r) = context (res_pass r).
Proof.
  intros E. unfold entry, DefaultMap_get. by rewrite E, OnceExit_lookup.
Qed.

(** Entries under other keys are not touched. *)
Lemma OnceExit_other key :
  key ≠ inputFile rq → cache (res_store r) !! key = cache st !! key.
Proof.
  intros Hne. unfold OnceExit, DefaultMap_get; simpl.
  rewrite lookup_insert_ne by done.
  destruct (cache st !! inputFile rq); simpl; [done|].
  by rewrite lookup_insert_ne.
Qed.

End on_cache.

Lemma entry_stored rq st c : cache st !! inputFile rq = Some c → entry rq st = c.
Proof. intros H. unfold entry, DefaultMap_get. by rewrite H. Qed.

(** ** Settled entries *)

Lemma forces_full_unchanged files first i mt file :
  unchanged files first i → file ∈ files →
  forces_full i.1 (inputFile i.2) mt file =
  forces_full first.1 (inputFile first.2) mt file.
Proof.
  intros (Hi & Hs & _) Hin. unfold forces_full. by rewrite Hi, Hs.
Qed.

(** The checked files depend on the compiler and the paths only. *)
Lemma checked_files_fields w rq c c' :
  compiler c' = compiler c → fullRebuildPaths c' = fullRebuildPaths c →
  checked_files w rq c' = checked_files w rq c.
Proof.
  intros Hc Hp. unfold checked_files, tracked_paths. by rewrite Hc, Hp.
Qed.

Lemma settled_unchanged first i c :
  unchanged (checked_files first.1 first.2 c) first i →
  settled first c → settled i c.
Proof.
  intros Hu [Hc Hq]. split; [done|]. intros file Hin.
  assert (file ∈ checked_files first.1 first.2 c) as Hin'.
  { destruct Hc as [h Hh], Hu as (Hi & _ & Hm).
    unfold checked_files at 1 in Hin. unfold tracked_paths in Hin.
    rewrite Hh, Hi in Hin.
    apply elem_of_app in Hin as [Hin|Hin]; [by apply Hm|].
    unfold checked_files, tracked_paths. rewrite Hh.
    rewrite elem_of_app. by right. }
  rewrite (forces_full_unchanged _ first i) by done. by apply Hq.
Qed.

(** Being settled depends on the compiler, the paths and the clock only. *)
Lemma settled_fields i c c' :
  compiler c' = compiler c → fullRebuildPaths c' = fullRebuildPaths c →
  mtimes c' = mtimes c → settled i c → settled i c'.
Proof.
  intros Hc Hp Hm [Hs Hq]. unfold settled, checked_files, tracked_paths in *.
  rewrite Hc, Hp, Hm. done.
Qed.

(** On a settled entry the pass is incremental: no [compile], and the
    compiler, its paths and the clock are left as they were. *)
Lemma settled_pass plugin i c n :
  settled i c →
  let ran := pass_on plugin i.1 i.2 c n in
  rebuildStrategy ran.1 = Some incremental ∧
  calls is_compile (log ran.1) = 0 ∧
  compiler (context ran.1) = compiler c ∧
  fullRebuildPaths (context ran.1) = fullRebuildPaths c ∧
  mtimes (context ran.1) = mtimes c ∧
  fresh ran.1 = n.
Proof.
  intros [[h Hh] Hq] ran.
  assert (decision i.1 i.2 c = (incremental, mtimes c)) as Hd
    by by apply track_files_incremental.
  destruct (pass_decision plugin i.1 i.2 c n) as [Hs Hm]; [left; by eexists|].
  destruct (pass_incremental plugin i.1 i.2 c n h) as (Hc & Hp & Hf & Hl);
    [done|by rewrite Hd|].
  rewrite Hd in Hs, Hm. simpl in Hs, Hm. subst ran.
  repeat split; congruence.
Qed.

(** A pass that creates the first compiler of an entry, on an input file
    that exists, leaves the entry settled. *)
Lemma first_pass_settles plugin i c n gs :
  compiler c = None →
  is_Some (statSync i.1 (inputFile i.2)) →
  (compile i.1 (req_root i.2) (inputBasePath i.1 i.2)).2 = inr gs →
  settled i (context (pass_on plugin i.1 i.2 c n).1).
Proof.
  intros Hc [t Ht] Hgs.
  destruct (pass_first plugin i.1 i.2 c n gs) as [[h Hh] Hp]; [done..|].
  destruct (pass_decision plugin i.1 i.2 c n) as [_ Hm]; [right; by eexists|].
  split; [by eexists|]. intros file Hin.
  assert (file ∈ checked_files i.1 i.2 c) as Hin'.
  { unfold checked_files, tracked_paths in *. rewrite Hc.
    by rewrite Hh, Hp in Hin. }
  unfold forces_full. rewrite Hm. unfold decision.
  rewrite track_files_clock.
  destruct (statSync i.1 file) as [t'|] eqn:Hstat.
  - rewrite decide_True by done. apply bool_decide_eq_false. by intros H.
  - apply bool_decide_eq_false. intros ->. congruence.
Qed.

Lemma invocations_cons plugin i l st :
  invocations plugin (i :: l) st =
  OnceExit plugin i.1 i.2 st ::
  invocations plugin l (res_store (OnceExit plugin i.1 i.2 st)).
Proof. reflexivity. Qed.

(** Invocations during which nothing changed for [files], on a settled
    entry whose checked files they are. *)
Lemma settled_invocations_on files plugin first rest st :
  Forall (unchanged files first) rest →
  checked_files first.1 first.2 (entry first.2 st) = files →
  settled first (entry first.2 st) →
  Forall (λ r, rebuildStrategy (res_pass r) = Some incremental ∧
               calls is_compile (log (res_pass r)) = 0 ∧
               compiler (context (res_pass r)) = compiler (entry first.2 st))
         (invocations plugin rest st).
Proof.
  intros Hrest. revert st.
  induction Hrest as [|i rest Hi _ IH]; intros st Hfiles Hs; [constructor|].
  rewrite invocations_cons.
  assert (entry i.2 st = entry first.2 st) as He.
  { unfold entry. by rewrite (proj1 Hi). }
  pose proof (settled_pass plugin i (entry i.2 st) (allocated st)) as Hp.
  destruct Hp as (H1 & H2 & H3 & H4 & H5 & H6);
    [rewrite He; apply (settled_unchanged first); by rewrite ?Hfiles|].
  rewrite He in *.
  assert (entry first.2 (res_store (OnceExit plugin i.1 i.2 st)) =
          context (res_pass (OnceExit plugin i.1 i.2 st))) as He'.
  { apply OnceExit_entry. symmetry. apply Hi. }
  constructor.
  - rewrite OnceExit_pass, He. done.
  - eapply Forall_impl; [apply IH|].
    + rewrite He', OnceExit_pass, He, <- Hfiles.
      by apply checked_files_fields.
    + rewrite He', OnceExit_pass, He. by eapply settled_fields.
    + intros r (? & ? & Hc). repeat split; try done.
      rewrite Hc, He', OnceExit_pass, He. done.
Qed.

Lemma settled_invocations plugin first rest st :
  Forall (unchanged (checked_files first.1 first.2 (entry first.2 st)) first)
         rest →
  settled first (entry first.2 st) →
  Forall (λ r, rebuildStrategy (res_pass r) = Some incremental ∧
               calls is_compile (log (res_pass r)) = 0 ∧
               compiler (context (res_pass r)) = compiler (entry first.2 st))
         (invocations plugin rest st).
Proof. intros Hrest. by eapply settled_invocations_on. Qed.

(** ** The claims *)

(** C1, amended.  Start on a cache entry that has no compiler yet (a fresh
    entry), with an entry-point file that exists on disk and a [compile]
    that returns.  When in the invocations that follow the first the
    input identity is the same, the entry point and the tracked
    dependency files (the files the first pass checks) keep their
    modification times, and no dependency message names another file,
    every invocation after the first chooses the incremental strategy,
    does not call [compile] and keeps the handle the first invocation
    left.  Nothing is asked of the other files of the disk. *)
Theorem incremental_after_first plugin first rest st gs :
  compiler (entry first.2 st) = None →
  is_Some (statSync first.1 (inputFile first.2)) →
  (compile first.1 (req_root first.2) (inputBasePath first.1 first.2)).2 = inr gs →
  Forall (unchanged (checked_files first.1 first.2 (entry first.2 st)) first)
         rest →
  Forall (λ r, rebuildStrategy (res_pass r) = Some incremental ∧
               calls is_compile (log (res_pass r)) = 0 ∧
               compiler (context (res_pass r)) =
               compiler (context (res_pass (OnceExit plugin first.1 first.2 st))))
         (tail (invocations plugin (first :: rest) st)).
Proof.
  intros Hfresh Hstat Hgs Hrest. rewrite invocations_cons.
  unfold tail.
  pose proof (OnceExit_entry plugin first.1 first.2 st first.2 eq_refl) as He.
  rewrite <- He.
  apply (settled_invocations_on
           (checked_files first.1 first.2 (entry first.2 st))); [done|..].
  - rewrite He, OnceExit_pass.
    destruct (pass_first plugin first.1 first.2 (entry first.2 st)
                (allocated st) gs Hfresh Hgs) as [[h Hh] Hp].
    unfold checked_files, tracked_paths. by rewrite Hh, Hp, Hfresh.
  - rewrite He, OnceExit_pass. by eapply first_pass_settles.
Qed.

(** An instance: three runs on the demo project; before the third, a
    template that is scanned but not tracked is saved again. *)
Lemma incremental_after_first_witness :
  Forall (λ r, rebuildStrategy (res_pass r) = Some incremental ∧
               calls is_compile (log (res_pass r)) = 0 ∧
               compiler (context (res_pass r)) =
               compiler (context (res_pass
                 (OnceExit Demo.plugin Demo.world Demo.request empty_store))))
         (tail (invocations Demo.plugin
                  [(Demo.world, Demo.request); (Demo.world, Demo.request);
                   (Demo.retemplated, Demo.request)] empty_store)).
Proof.
  apply (incremental_after_first Demo.plugin (Demo.world, Demo.request)
           [(Demo.world, Demo.request); (Demo.retemplated, Demo.request)]
           empty_store Demo.app_globs).
  - reflexivity.
  - exists 100%Z. reflexivity.
  - reflexivity.
  - constructor; [|constructor; [|constructor]];
      (split; [reflexivity|split]).
    + intros file Hin. reflexivity.
    + intros x Hx. vm_compute in Hx. by apply elem_of_nil in Hx.
    + intros file Hin. vm_compute in Hin.
      apply elem_of_cons in Hin as [->|Hin]; [reflexivity|].
      apply elem_of_cons in Hin as [->|Hin]; [reflexivity|].
      by apply elem_of_nil in Hin.
    + intros x Hx. vm_compute in Hx. by apply elem_of_nil in Hx.
Defined.

Example template_change_is_incremental :
  statSync Demo.retemplated "/app/index.html" ≠
  statSync Demo.world "/app/index.html" ∧
  (rebuildStrategy ∘ res_pass) <$>
    invocations Demo.plugin
      [(Demo.world, Demo.request); (Demo.retemplated, Demo.request)]
      empty_store
  = [Some full; Some incremental].
Proof. split; [done|]. vm_compute. reflexivity. Qed.

(** On an entry that already has a compiler, a full rebuild that finds a
    new import records its time one pass later: the pass after it is full
    once more, and the passes after that one are incremental. *)
Example new_import_settles_one_pass_later :
  (rebuildStrategy ∘ res_pass) <$>
    invocations Demo.plugin
      [(Demo.grown, Demo.request); (Demo.grown, Demo.request);
       (Demo.grown, Demo.request); (Demo.grown, Demo.request)] Demo.warm
  = [Some full; Some full; Some incremental; Some incremental].
Proof. vm_compute. reflexivity. Qed.

(** C1 as stated fails when the entry point is not on disk: CSS processed
    without a [from] has the input file [""], which [statSync] never
    finds, and every invocation is a full rebuild although nothing
    changed between them. *)
Lemma pathless_rebuilds_every_time :
  unchanged (checked_files Demo.world Demo.pathless factory)
    (Demo.world, Demo.pathless) (Demo.world, Demo.pathless) ∧
  (λ r, (rebuildStrategy (res_pass r), calls is_compile (log (res_pass r)))) <$>
    invocations Demo.plugin
      [(Demo.world, Demo.pathless); (Demo.world, Demo.pathless);
       (Demo.world, Demo.pathless)] empty_store
  = [(Some full, 2); (Some full, 1); (Some full, 1)].
Proof.
  split; [|vm_compute; reflexivity].
  split; [reflexivity|split].
  - intros file Hin. reflexivity.
  - intros x Hx. vm_compute in Hx. by apply elem_of_nil in Hx.
Qed.

(** ** Handles in the store *)

Lemma empty_store_wf : store_wf empty_store.
Proof. intros key c h H. simpl in H. by rewrite lookup_empty in H. Qed.

Lemma entry_wf rq st h :
  store_wf st → compiler (entry rq st) = Some h → handle_id h < allocated st.
Proof.
  intros Hwf. unfold entry, DefaultMap_get.
  destruct (cache st !! inputFile rq) as [c|] eqn:E; simpl; [|done].
  intros Hh. by eapply Hwf.
Qed.

Lemma OnceExit_store_wf plugin w rq st :
  store_wf st → store_wf (res_store (OnceExit plugin w rq st)).
Proof.
  intros Hwf key c h Hkey Hh.
  destruct (pass_handles plugin w rq (entry rq st) (allocated st)) as [Hle Hlt].
  { intros h'. by apply entry_wf. }
  change (allocated (res_store (OnceExit plugin w rq st)))
    with (fresh (pass_on plugin w rq (entry rq st) (allocated st)).1).
  destruct (decide (key = inputFile rq)) as [->|Hne].
  - rewrite OnceExit_lookup in Hkey. injection Hkey as <-. by apply Hlt.
  - rewrite OnceExit_other in Hkey by done.
    pose proof (Hwf key c h Hkey Hh). lia.
Qed.

(** C2, amended.  When a path of [fullRebuildPaths] exists on disk with a
    time that is not the recorded one, or with none recorded, the
    strategy is full and the clock holds the observed time.  After the
    scan [createCompiler] runs: the require cache is cleared for the old
    paths and [compile] is called.  When [compile] returns, the entry
    holds a handle that was not allocated before, [fullRebuildPaths] are
    the paths this [compile] reported, and the build that follows runs on
    the new handle.  When [compile] throws, the handle is not recreated:
    the pass ends there with that error and without a build, the entry
    keeps the old handle, and [fullRebuildPaths] are the paths [compile]
    reported before it threw. *)
Theorem touched_dependency_forces_full plugin w rq st c h p t :
  store_wf st →
  cache st !! inputFile rq = Some c → compiler c = Some h →
  p ∈ fullRebuildPaths c → statSync w p = Some t → mtimes c !! p ≠ Some t →
  let r := OnceExit plugin w rq st in
  let compiled := compile w (req_root rq) (inputBasePath w rq) in
  rebuildStrategy (res_pass r) = Some full ∧
  mtimes (context (res_pass r)) !! p = Some t ∧
  ∃ rest,
    log (res_pass r) = EvScan (base plugin) (globs h)
                       :: EvClearRequireCache (fullRebuildPaths c)
                       :: EvCompile (req_root rq) (inputBasePath w rq) :: rest ∧
    match compiled.2 with
    | inl e =>
        res_outcome r = inl e ∧ rest = [] ∧
        compiler (context (res_pass r)) = Some h ∧
        fullRebuildPaths (context (res_pass r)) = compiled.1
    | inr gs =>
        ∃ created,
          compiler (context (res_pass r)) = Some created ∧
          created ≠ h ∧ handle_id created = allocated st ∧
          globs created = gs ∧
          fullRebuildPaths (context (res_pass r)) = compiled.1 ∧
          ∃ rest', rest = EvBuild created
                            (scan_candidates (scan w (base plugin) (globs h)))
                          :: rest'
    end.
Proof.
  intros Hwf Hc Hh Hp Hstat Hclock r compiled. subst r compiled.
  rewrite OnceExit_pass, OnceExit_outcome, (entry_stored _ _ _ Hc).
  assert (p ∈ checked_files w rq c) as Hin.
  { unfold checked_files, tracked_paths. rewrite Hh, !elem_of_app. auto. }
  assert ((decision w rq c).1 = full) as Hd.
  { apply track_files_strategy. right. exists p. split; [done|].
    unfold forces_full. rewrite Hstat. by apply bool_decide_eq_true. }
  destruct (pass_decision plugin w rq c (allocated st)) as [Hs Hm];
    [left; by eexists|].
  split; [by rewrite Hs, Hd|]. split.
  { rewrite Hm. unfold decision. rewrite track_files_clock, Hstat.
    by rewrite decide_True. }
  destruct (pass_full plugin w rq c (allocated st) h Hh Hd) as (rest & Hlog & H).
  exists rest. split; [done|].
  destruct (compile w (req_root rq) (inputBasePath w rq)).2 as [e|gs].
  - by destruct H as (? & ? & ? & ?).
  - destruct H as (Hnew & Hpaths & _ & Hrest).
    eexists. split; [exact Hnew|]. repeat split; try done.
    intros <-. pose proof (Hwf _ _ _ Hc Hh) as Hlt. simpl in Hlt. lia.
Qed.

(** An instance: [b.css] is saved again after a first pass. *)
Lemma touched_dependency_forces_full_witness :
  let r := OnceExit Demo.plugin Demo.touched Demo.request Demo.warm in
  rebuildStrategy (res_pass r) = Some full ∧
  mtimes (context (res_pass r)) !! "/app/b.css" = Some 201%Z ∧
  ∃ created, compiler (context (res_pass r)) = Some created ∧
             created ≠ Demo.handle ∧ handle_id created = 2.
Proof.
  destruct (touched_dependency_forces_full Demo.plugin Demo.touched
              Demo.request Demo.warm
              (context (res_pass (OnceExit Demo.plugin Demo.world Demo.request
                                    empty_store)))
              Demo.handle "/app/b.css" 201%Z)
    as (Hs & Hm & rest & _ & created & Hc & Hne & Hid & _).
  - apply OnceExit_store_wf, empty_store_wf.
  - apply OnceExit_lookup.
  - vm_compute. reflexivity.
  - vm_compute. constructor.
  - reflexivity.
  - vm_compute. intros H. discriminate H.
  - split; [exact Hs|]. split; [exact Hm|].
    exists created. split; [exact Hc|]. split; [exact Hne|exact Hid].
Defined.

(** C2 as stated fails when [compile] throws: [b.css] is tracked and was
    saved again, the strategy is full and the new time is recorded, but
    the handle of the entry is the old one and nothing is built. *)
Lemma touched_dependency_with_invalid_css :
  let c := entry Demo.request Demo.warm in
  let r := OnceExit Demo.plugin Demo.invalid Demo.request Demo.warm in
  compiler c = Some Demo.handle ∧
  fullRebuildPaths c = ["/app/b.css"] ∧
  mtimes c !! "/app/b.css" = Some 200%Z ∧
  statSync Demo.invalid "/app/b.css" = Some 201%Z ∧
  rebuildStrategy (res_pass r) = Some full ∧
  mtimes (context (res_pass r)) !! "/app/b.css" = Some 201%Z ∧
  compiler (context (res_pass r)) = Some Demo.handle ∧
  calls is_build (log (res_pass r)) = 0 ∧
  res_outcome r = inl "CssSyntaxError".
Proof. vm_compute. done. Qed.



(** Deleting [b.css] leaves the next pass incremental; a request whose
    entry point is not on disk is rebuilt in full. *)
Example deleted_dependency_is_incremental :
  rebuildStrategy (res_pass (OnceExit Demo.plugin Demo.deleted Demo.request
                               Demo.warm)) = Some incremental.
Proof. vm_compute. reflexivity. Qed.

Example deleted_entry_is_full :
  rebuildStrategy
    (res_pass (OnceExit Demo.plugin
                 (Demo.make (λ _, None) ["/app/b.css"] ["flex"] Demo.join)
                 Demo.request Demo.warm)) = Some full.
Proof. vm_compute. reflexivity. Qed.

(** C4, amended.  With [optimize] truthy, take two consecutive passes on
    one cache entry whose builds return the same CSS.  The second pass
    does not call the transform, emits the optimized CSS the first pass
    left in the cache and leaves it there.  Over the two passes the
    transform runs at most once: once when the CSS differs from the one
    cached before the first pass, never when it is equal to it. *)
Theorem unchanged_css_is_not_optimized_again
    plugin w1 rq1 w2 rq2 st h1 cs1 h2 cs2 built :
  truthy (optimize plugin) = true →
  inputFile rq2 = inputFile rq1 →
  let r1 := OnceExit plugin w1 rq1 st in
  let r2 := OnceExit plugin w2 rq2 (res_store r1) in
  EvBuild h1 cs1 ∈ log (res_pass r1) → build w1 h1 cs1 = inr built →
  EvBuild h2 cs2 ∈ log (res_pass r2) → build w2 h2 cs2 = inr built →
  calls is_transform (log (res_pass r2)) = 0 ∧
  res_outcome r2 = inr () ∧
  root (res_pass r2) = optimizedCss (context (res_pass r1)) ∧
  optimizedCss (context (res_pass r2)) = optimizedCss (context (res_pass r1)) ∧
  calls is_transform (log (res_pass r1)) + calls is_transform (log (res_pass r2)) =
    (if decide (built = css (entry rq1 st)) then 0 else 1).
Proof.
  intros Ho Hsame r1 r2 Hlog1 Hb1 Hlog2 Hb2. subst r1 r2.
  rewrite !OnceExit_pass, !OnceExit_outcome in *.
  rewrite (OnceExit_entry plugin w1 rq1 st rq2 Hsame) in *.
  rewrite !OnceExit_pass in *.
  set (n2 := allocated (res_store (OnceExit plugin w1 rq1 st))) in *.
  set (c1 := entry rq1 st) in *. set (n1 := allocated st) in *.
  destruct (pass_build_returns plugin w1 rq1 c1 n1 h1 cs1 built Hlog1 Hb1)
    as [Hr1 Hcss1].
  set (c2 := context (pass_on plugin w1 rq1 c1 n1).1) in *.
  destruct (pass_build_returns plugin w2 rq2 c2 n2 h2 cs2 built Hlog2 Hb2)
    as [Hr2 Hcss2].
  pose proof (pass_gate plugin w1 rq1 c1 n1 Ho Hr1) as G1.
  pose proof (pass_gate plugin w2 rq2 c2 n2 Ho Hr2) as G2.
  fold c2 in G1. rewrite Hcss1 in G1. rewrite Hcss2, Hcss1 in G2.
  rewrite decide_True in G2 by done. destruct G2 as (T2 & O2 & R2).
  rewrite T2, Nat.add_0_r. repeat split; try done.
  destruct (decide (built = css c1)); by destruct G1 as (-> & _).
Qed.

(** An instance: two passes on the demo project. *)
Lemma unchanged_css_is_not_optimized_again_witness :
  let r1 := OnceExit Demo.plugin Demo.world Demo.request empty_store in
  let r2 := OnceExit Demo.plugin Demo.world Demo.request (res_store r1) in
  calls is_transform (log (res_pass r2)) = 0 ∧
  root (res_pass r2) = optimizedCss (context (res_pass r1)) ∧
  calls is_transform (log (res_pass r1)) + calls is_transform (log (res_pass r2)) = 1.
Proof.
  destruct (unchanged_css_is_not_optimized_again Demo.plugin
              Demo.world Demo.request Demo.world Demo.request empty_store
              Demo.handle ["flex"; "p-4"] Demo.handle ["flex"; "p-4"] "flex p-4")
    as (H2 & _ & Hroot & _ & Hsum).
  - reflexivity.
  - reflexivity.
  - vm_compute. repeat constructor.
  - reflexivity.
  - vm_compute. repeat constructor.
  - reflexivity.
  - split; [exact H2|]. split; [exact Hroot|exact Hsum].
Defined.

(** C4 as stated fails when the first of the two passes builds the CSS the
    entry already holds; the transform then runs zero times over the two
    passes, not once.  On a fresh entry ([css] is [""]) this is the case
    for an empty build result, and it is the case for the second and
    third of three passes that build the same CSS. *)
Lemma repeated_css_is_optimized_zero_times :
  let transforms r := calls is_transform (log (res_pass r)) in
  let r1 := OnceExit Demo.plugin Demo.blank Demo.request empty_store in
  let r2 := OnceExit Demo.plugin Demo.blank Demo.request (res_store r1) in
  let s1 := OnceExit Demo.plugin Demo.world Demo.request empty_store in
  let s2 := OnceExit Demo.plugin Demo.world Demo.request (res_store s1) in
  let s3 := OnceExit Demo.plugin Demo.world Demo.request (res_store s2) in
  truthy (optimize Demo.plugin) = true ∧
  (css (context (res_pass r1)) = "" ∧ css (context (res_pass r2)) = "" ∧
   res_outcome r1 = inr () ∧ res_outcome r2 = inr () ∧
   transforms r1 + transforms r2 = 0) ∧
  (css (context (res_pass s2)) = "flex p-4" ∧
   css (context (res_pass s3)) = "flex p-4" ∧
   res_outcome s2 = inr () ∧ res_outcome s3 = inr () ∧
   transforms s2 + transforms s3 = 0).
Proof. vm_compute. done. Qed.

(** C5.  When the build throws, the pass ends with the error the build
    threw, and the cache entry holds the [css] and the [optimizedCss] it
    held before the pass. *)
Theorem failed_build_keeps_cached_css plugin w rq st h cs e :
  let r := OnceExit plugin w rq st in
  EvBuild h cs ∈ log (res_pass r) → build w h cs = inl e →
  res_outcome r = inl e ∧
  css (entry rq (res_store r)) = css (entry rq st) ∧
  optimizedCss (entry rq (res_store r)) = optimizedCss (entry rq st) ∧
  calls is_transform (log (res_pass r)) = 0.
Proof.
  intros r Hlog Hb. subst r.
  rewrite (OnceExit_entry plugin w rq st rq eq_refl).
  rewrite OnceExit_pass, OnceExit_outcome in *.
  by eapply pass_build_throws.
Qed.

(** An instance: the build throws on the second pass. *)
Lemma failed_build_keeps_cached_css_witness :
  let r := OnceExit Demo.plugin Demo.failing Demo.request Demo.warm in
  res_outcome r = inl "CompileError" ∧
  css (entry Demo.request (res_store r)) = css (entry Demo.request Demo.warm) ∧
  optimizedCss (entry Demo.request (res_store r)) =
    optimizedCss (entry Demo.request Demo.warm) ∧
  calls is_transform (log (res_pass r)) = 0.
Proof.
  apply (failed_build_keeps_cached_css Demo.plugin Demo.failing Demo.request
           Demo.warm Demo.handle ["flex"; "p-4"] "CompileError").
  - vm_compute. repeat constructor.
  - reflexivity.
Defined.

Example failed_build_keeps_demo_css :
  let r := OnceExit Demo.plugin Demo.failing Demo.request Demo.warm in
  css (entry Demo.request (res_store r)) = "flex p-4" ∧
  optimizedCss (entry Demo.request (res_store r)) = "min:flex p-4" ∧
  root (res_pass r) = req_root Demo.request.
Proof. vm_compute. done. Qed.

(** C7.  With [optimize] falsy, a pass whose build returns emits what the
    build returned, whatever [optimizedCss] the cache holds; the transform
    is not called and the cached [optimizedCss] is left as it was. *)
Theorem raw_css_when_not_optimizing plugin w rq st h cs built :
  truthy (optimize plugin) = false →
  let r := OnceExit plugin w rq st in
  EvBuild h cs ∈ log (res_pass r) → build w h cs = inr built →
  res_outcome r = inr () ∧
  root (res_pass r) = built ∧
  css (context (res_pass r)) = built ∧
  optimizedCss (context (res_pass r)) = optimizedCss (entry rq st) ∧
  calls is_transform (log (res_pass r)) = 0.
Proof.
  intros Ho r Hlog Hb. subst r. rewrite OnceExit_pass, OnceExit_outcome in *.
  by eapply pass_raw_output.
Qed.

(** An instance: [optimize: false] on an entry whose cached [optimizedCss]
    comes from an optimizing run. *)
Lemma raw_css_when_not_optimizing_witness :
  let r := OnceExit Demo.plain Demo.world Demo.request Demo.warm in
  res_outcome r = inr () ∧
  root (res_pass r) = "flex p-4" ∧
  css (context (res_pass r)) = "flex p-4" ∧
  optimizedCss (context (res_pass r)) = optimizedCss (entry Demo.request Demo.warm) ∧
  calls is_transform (log (res_pass r)) = 0.
Proof.
  apply (raw_css_when_not_optimizing Demo.plain Demo.world Demo.request
           Demo.warm Demo.handle ["flex"; "p-4"] "flex p-4").
  - reflexivity.
  - vm_compute. repeat constructor.
  - reflexivity.
Defined.

(** C8.  [tailwindcss()] and [tailwindcss({})] scan the current working
    directory and optimize exactly when [NODE_ENV] is ['production']. *)
Theorem defaults_without_options w :
  let empty := Some {| opt_base := None; opt_optimize := None |} in
  base (tailwindcss w None) = cwd w ∧
  base (tailwindcss w empty) = cwd w ∧
  optimize (tailwindcss w None) =
    OptimizeBool (bool_decide (NODE_ENV w = Some "production")) ∧
  optimize (tailwindcss w empty) = optimize (tailwindcss w None) ∧
  (truthy (optimize (tailwindcss w None)) = true ↔
   NODE_ENV w = Some "production").
Proof.
  repeat split; try done; simpl.
  - apply bool_decide_eq_true_1.
  - apply bool_decide_eq_true_2.
Qed.

Example defaults_in_development :
  let w := {| cwd := "/srv"; NODE_ENV := Some "development";
              statSync := λ _, None; dirname_resolve := λ p, p;
              compile := λ _ _, ([], inr []);
              scan := λ _ gs, {| scan_candidates := []; scan_files := [];
                                 scan_globs := gs |};
              build := λ _ _, inr ""; transform := λ _ s, s |} in
  tailwindcss w None = {| base := "/srv"; optimize := OptimizeBool false |}.
Proof. reflexivity. Qed.

(** C9.  A request without [from] has the input file [""]: the pass runs
    on the entry under that key and stores it there, no other entry is
    touched, and the next request without [from] starts from the context
    (compiler, clock, paths, CSS pair) the previous one left. *)
Theorem pathless_inputs_share_one_entry plugin w1 rq1 w2 rq2 st :
  req_from rq1 = None → req_from rq2 = None →
  let r1 := OnceExit plugin w1 rq1 st in
  let r2 := OnceExit plugin w2 rq2 (res_store r1) in
  inputFile rq1 = "" ∧ inputFile rq2 = "" ∧
  res_pass r1 =
    (pass_on plugin w1 rq1 (default factory (cache st !! "")) (allocated st)).1 ∧
  cache (res_store r1) !! "" = Some (context (res_pass r1)) ∧
  (∀ key, key ≠ "" → cache (res_store r1) !! key = cache st !! key) ∧
  res_pass r2 =
    (pass_on plugin w2 rq2 (context (res_pass r1)) (allocated (res_store r1))).1.
Proof.
  intros H1 H2 r1 r2.
  assert (inputFile rq1 = "") as E1 by (unfold inputFile; by rewrite H1).
  assert (inputFile rq2 = "") as E2 by (unfold inputFile; by rewrite H2).
  subst r1 r2. repeat split; try done.
  - rewrite OnceExit_pass. unfold entry, DefaultMap_get. rewrite E1.
    by destruct (cache st !! "").
  - rewrite <- E1. apply OnceExit_lookup.
  - intros key Hne. apply OnceExit_other. by rewrite E1.
  - rewrite OnceExit_pass, (OnceExit_entry plugin w1 rq1 st rq2); [done|].
    by rewrite E1, E2.
Qed.

(** An instance: two requests without [from], with different roots. *)
Lemma pathless_inputs_share_one_entry_witness :
  let other := {| req_root := ".card { margin: 0 }"; req_from := None;
                  req_messages := [] |} in
  let r1 := OnceExit Demo.plugin Demo.world Demo.pathless empty_store in
  let r2 := OnceExit Demo.plugin Demo.world other (res_store r1) in
  cache (res_store r1) !! "" = Some (context (res_pass r1)) ∧
  res_pass r2 =
    (pass_on Demo.plugin Demo.world other (context (res_pass r1))
       (allocated (res_store r1))).1.
Proof.
  destruct (pathless_inputs_share_one_entry Demo.plugin Demo.world Demo.pathless
              Demo.world
              {| req_root := ".card { margin: 0 }"; req_from := None;
                 req_messages := [] |} empty_store)
    as (_ & _ & _ & Hl & _ & Hp).
  - reflexivity.
  - reflexivity.
  - split; [exact Hl|exact Hp].
Defined.

(** C10.  A path other than the entry point that is missing during a pass
    keeps, after the pass, the clock entry it had before.  When the file
    is back in a later pass on the same entry with the retained time, it
    does not force a full rebuild: the strategy is the one the loop
    chooses on the other checked files. *)
Theorem missing_dependency_keeps_its_time plugin w1 rq1 w2 rq2 st p t :
  inputFile rq2 = inputFile rq1 → p ≠ inputFile rq1 →
  statSync w1 p = None →
  mtimes (entry rq1 st) !! p = Some t →
  let r1 := OnceExit plugin w1 rq1 st in
  let r2 := OnceExit plugin w2 rq2 (res_store r1) in
  let c1 := entry rq2 (res_store r1) in
  mtimes c1 !! p = Some t ∧
  (statSync w2 p = Some t →
   forces_full w2 (inputFile rq2) (mtimes c1) p = false ∧
   (setup_succeeds w2 rq2 c1 →
    rebuildStrategy (res_pass r2) = Some (decision_without p w2 rq2 c1).1)).
Proof.
  intros Hsame Hne Hmissing Hold r1 r2 c1. subst r1 r2 c1.
  rewrite (OnceExit_entry plugin w1 rq1 st rq2 Hsame).
  assert (mtimes (context (res_pass (OnceExit plugin w1 rq1 st))) !! p = Some t)
    as Hkept.
  { rewrite OnceExit_pass, pass_clock_missing; done. }
  split; [done|]. intros Hback.
  assert (forces_full w2 (inputFile rq2)
            (mtimes (context (res_pass (OnceExit plugin w1 rq1 st)))) p = false)
    as Hquiet.
  { unfold forces_full. rewrite Hback, Hkept. apply bool_decide_eq_false. auto. }
  split; [done|]. intros Hs.
  rewrite (OnceExit_pass plugin w2 rq2), (OnceExit_entry plugin w1 rq1 st rq2 Hsame).
  by apply pass_decision_without.
Qed.

(** An instance: [b.css] is deleted, then restored with its old time. *)
Lemma missing_dependency_keeps_its_time_witness :
  let r1 := OnceExit Demo.plugin Demo.deleted Demo.request Demo.warm in
  let r2 := OnceExit Demo.plugin Demo.world Demo.request (res_store r1) in
  let c1 := entry Demo.request (res_store r1) in
  mtimes c1 !! "/app/b.css" = Some 200%Z ∧
  forces_full Demo.world "/app/a.css" (mtimes c1) "/app/b.css" = false ∧
  rebuildStrategy (res_pass r2) =
    Some (decision_without "/app/b.css" Demo.world Demo.request c1).1.
Proof.
  destruct (missing_dependency_keeps_its_time Demo.plugin Demo.deleted
              Demo.request Demo.world Demo.request Demo.warm "/app/b.css" 200%Z)
    as (Hkept & Hback).
  - reflexivity.
  - intros H. discriminate H.
  - reflexivity.
  - vm_compute. reflexivity.
  - destruct Hback as (Hquiet & Hstrategy); [reflexivity|].
    split; [exact Hkept|]. split; [exact Hquiet|].
    apply Hstrategy. left. exists Demo.handle. vm_compute. reflexivity.
Defined.

Example restored_dependency_is_incremental :
  let r1 := OnceExit Demo.plugin Demo.deleted Demo.request Demo.warm in
  let r2 := OnceExit Demo.plugin Demo.world Demo.request (res_store r1) in
  rebuildStrategy (res_pass r1) = Some incremental ∧
  rebuildStrategy (res_pass r2) = Some incremental ∧
  calls is_compile (log (res_pass r2)) = 0.
Proof. vm_compute. done. Qed.

(** ** More about the loop *)

Section loop.
Context (w : World) (i : string).
Implicit Types (mt : gmap string Z) (s : RebuildStrategy) (files : list string).

(** After the loop no file of the list forces a full rebuild any more,
    the entry point left aside when it is missing. *)
Lemma track_files_in_sync s mt files f :
  f ∈ files → is_Some (statSync w i) ∨ f ≠ i →
  forces_full w i (track_files w i files (s, mt)).2 f = false.
Proof.
  intros Hin Hentry. unfold forces_full. rewrite track_files_clock.
  destruct (statSync w f) as [t|] eqn:Hf.
  - rewrite decide_True by done. apply bool_decide_eq_false. auto.
  - apply bool_decide_eq_false. intros ->.
    destruct Hentry as [[t Ht]|Hne]; congruence.
Qed.

Lemma track_files_quiet s mt files :
  (track_files w i files (s, mt)).1 = incremental →
  s = incremental ∧ ∀ f, f ∈ files → forces_full w i mt f = false.
Proof.
  intros Hinc. split.
  - destruct s; [|done]. by rewrite track_files_full in Hinc.
  - intros f Hin. destruct (forces_full w i mt f) eqn:Hf; [|done].
    assert ((track_files w i files (s, mt)).1 = full) as Hfull.
    { apply track_files_strategy. right. by exists f. }
    congruence.
Qed.

End loop.

(** X1.  The strategy and the clock the loop ends with depend on the set
    of checked files only: neither the order of the files nor a file
    listed twice (by another plugin's message and by [fullRebuildPaths],
    say) makes a difference. *)
Theorem loop_depends_on_the_set_of_files w i files files' acc :
  (∀ f, f ∈ files ↔ f ∈ files') →
  track_files w i files acc = track_files w i files' acc.
Proof.
  intros Hset. destruct acc as [s mt].
  rewrite (surjective_pairing (track_files w i files (s, mt))),
    (surjective_pairing (track_files w i files' (s, mt))). f_equal.
  - destruct (track_files w i files (s, mt)).1 eqn:E.
    + symmetry. apply track_files_strategy.
      apply track_files_strategy in E as [?|(f & Hf & ?)]; [by left|].
      right. exists f. by rewrite <- Hset.
    + destruct (track_files w i files' (s, mt)).1 eqn:E'; [|done].
      apply track_files_strategy in E' as [?|(f & Hf & ?)].
      * subst s. by rewrite track_files_full in E.
      * assert ((track_files w i files (s, mt)).1 = full) as Hfull.
        { apply track_files_strategy. right. exists f. by rewrite Hset. }
        congruence.
  - apply map_eq. intros p. rewrite !track_files_clock.
    destruct (statSync w p); [|done].
    destruct (decide (p ∈ files)) as [Hin|Hnin];
      destruct (decide (p ∈ files')) as [Hin'|Hnin']; try done.
    + exfalso. by apply Hnin', Hset.
    + exfalso. by apply Hnin, Hset.
Qed.

Lemma loop_depends_on_the_set_of_files_witness :
  track_files Demo.world "/app/a.css"
    ["/app/b.css"; "/app/a.css"; "/app/b.css"] (incremental, ∅) =
  track_files Demo.world "/app/a.css"
    ["/app/a.css"; "/app/b.css"] (incremental, ∅).
Proof.
  apply (loop_depends_on_the_set_of_files Demo.world "/app/a.css"
           ["/app/b.css"; "/app/a.css"; "/app/b.css"]
           ["/app/a.css"; "/app/b.css"] (incremental, ∅)).
  intros f. rewrite !elem_of_cons, !elem_of_nil. tauto.
Defined.

(** X2.  When the entry point exists (or is not among the files), the
    loop leaves a clock on which the same loop, run again on the same
    disk, changes nothing and stays incremental. *)
Theorem loop_is_idempotent w i files acc :
  is_Some (statSync w i) ∨ i ∉ files →
  let after := track_files w i files acc in
  track_files w i files (incremental, after.2) = (incremental, after.2).
Proof.
  intros Hentry after. subst after. destruct acc as [s mt].
  apply track_files_incremental. intros f Hin.
  apply track_files_in_sync; [done|].
  destruct Hentry as [?|Hnin]; [by left|]. right. intros ->. done.
Qed.

Lemma loop_is_idempotent_witness :
  let after := track_files Demo.touched "/app/a.css"
                 ["/app/b.css"; "/app/a.css"] (incremental, ∅) in
  track_files Demo.touched "/app/a.css" ["/app/b.css"; "/app/a.css"]
    (incremental, after.2) = (incremental, after.2).
Proof.
  apply (loop_is_idempotent Demo.touched "/app/a.css"
           ["/app/b.css"; "/app/a.css"] (incremental, ∅)).
  left. exists 100%Z. reflexivity.
Defined.

(** ** More about the pass *)

Ltac use_strategy :=
  repeat match goal with
    | H : (track_files _ _ _ _).1 = _ |- _ => rewrite H in *
    end.

Ltac log_member H :=
  repeat (apply elem_of_cons in H as [H|H]; try discriminate H);
  try (by apply elem_of_nil in H);
  simplify_eq.

Section pass_more.
Context (plugin : Plugin) (w : World) (rq : Request) (c : Context) (n : nat).

Local Abbreviation ran := (pass_on plugin w rq c n).
Local Abbreviation compiled := (compile w (req_root rq) (inputBasePath w rq)).

(** [compile] is called once when the entry has no compiler and once
    more when the strategy is full. *)
Lemma pass_compile_calls :
  calls is_compile (log ran.1) =
  (match compiler c with Some _ => 0 | None => 1 end) +
  (match rebuildStrategy ran.1 with Some full => 1 | _ => 0 end).
Proof. run_pass; done. Qed.

(** The messages: untouched when the setup throws, the manifest otherwise. *)
Lemma pass_messages :
  match rebuildStrategy ran.1 with
  | None => messages ran.1 = req_messages rq
  | Some _ => messages ran.1 = manifest plugin w rq c
  end.
Proof.
  unfold manifest, scanned_globs.
  run_pass; rewrite <- ?app_assoc; try done;
    repeat match goal with
      | H : compiled.2 = _ |- _ => rewrite H
      end; done.
Qed.

(** A pass that throws has not touched the root. *)
Lemma pass_error_keeps_root e : ran.2 = inl e → root ran.1 = req_root rq.
Proof. run_pass; done. Qed.

(** The handle and the paths after a pass whose [compile] returns. *)
Lemma pass_paths_after gs :
  compiled.2 = inr gs →
  is_Some (compiler (context ran.1)) ∧
  fullRebuildPaths (context ran.1) =
    match (decision w rq c).1 with
    | full => compiled.1
    | incremental => tracked_paths w rq c
    end.
Proof. intros Hgs. run_pass; use_strategy; done. Qed.

(** A full pass whose [createCompiler] throws keeps the old handle, with
    the paths [compile] reported before it threw. *)
Lemma pass_recreate_throws h e :
  compiler c = Some h → (decision w rq c).1 = full → compiled.2 = inl e →
  ran.2 = inl e ∧ compiler (context ran.1) = Some h ∧
  fullRebuildPaths (context ran.1) = compiled.1.
Proof. intros Hc Hd He. run_pass; use_strategy; done. Qed.

(** The log of an incremental pass starts with the scan and the build on
    the handle of the entry. *)
Lemma pass_incremental_log h :
  compiler c = Some h → (decision w rq c).1 = incremental →
  ∃ rest, log ran.1 =
    EvScan (base plugin) (globs h)
    :: EvBuild h (scan_candidates (scan w (base plugin) (globs h))) :: rest.
Proof. intros Hc Hd. run_pass; use_strategy; try done; by eexists. Qed.

(** What a setup that throws leaves behind. *)
Lemma pass_setup_throws_frame e :
  compiler c = None → compiled.2 = inl e →
  messages ran.1 = req_messages rq ∧ root ran.1 = req_root rq ∧
  fullRebuildPaths (context ran.1) = compiled.1 ∧
  css (context ran.1) = css c ∧ optimizedCss (context ran.1) = optimizedCss c ∧
  calls is_scan (log ran.1) = 0 ∧ calls is_build (log ran.1) = 0.
Proof. intros Hc He. run_pass. done. Qed.

(** The first pass on an entry without compiler and without clock. *)
Lemma pass_fresh gs :
  compiler c = None → mtimes c = ∅ → compiled.2 = inr gs →
  rebuildStrategy ran.1 = Some full ∧
  ∃ rest,
    log ran.1 =
      [EvClearRequireCache (fullRebuildPaths c);
       EvCompile (req_root rq) (inputBasePath w rq);
       EvScan (base plugin) gs;
       EvClearRequireCache compiled.1;
       EvCompile (req_root rq) (inputBasePath w rq);
       EvBuild {| handle_id := S n; handle_css := req_root rq;
                  handle_base := inputBasePath w rq; globs := gs |}
               (scan_candidates (scan w (base plugin) gs))] ++ rest.
Proof.
  intros Hc Hm Hgs.
  assert ((decision w rq c).1 = full) as Hd.
  { apply track_files_strategy. right. exists (inputFile rq). split.
    - unfold checked_files. rewrite !elem_of_app, list_elem_of_singleton. auto.
    - unfold forces_full. rewrite Hm.
      destruct (statSync w (inputFile rq)); by apply bool_decide_eq_true. }
  run_pass; use_strategy; try done; split; try done; by eexists.
Qed.

(** With [optimize] truthy and the transform [t], a pair that is in step
    stays in step, and a pass that returns emits the cached
    [optimizedCss]. *)
Lemma pass_in_step t :
  truthy (optimize plugin) = true → transform w = t → in_step plugin t c →
  in_step plugin t (context ran.1) ∧
  (ran.2 = inr () → root ran.1 = optimizedCss (context ran.1)).
Proof.
  intros Ho Ht Hin. unfold in_step, optimizeCss in *. subst t.
  run_pass; rewrite ?Ho in *; (split; [|done]); try done;
    repeat match goal with
      | H : _ && true = _ |- _ => rewrite andb_true_r in H
      | H : bool_decide _ = false |- _ => apply bool_decide_eq_false in H
      end;
    try (by right);
    match goal with
    | H : ¬ ?s ≠ _ |- _ =>
        assert (s = css c) as -> by (by destruct (decide (s = css c)))
    end; done.
Qed.

(** The one transform of a pass, when there is one. *)
Lemma pass_transform_event o input :
  EvTransform o input ∈ log ran.1 →
  truthy (optimize plugin) = true ∧
  o = transform_options (minify_of (optimize plugin)) ∧
  input = css (context ran.1) ∧ input ≠ css c ∧
  optimizedCss (context ran.1) = transform w o input ∧
  root ran.1 = transform w o input ∧
  ran.2 = inr () ∧ calls is_transform (log ran.1) = 1.
Proof.
  run_pass; intros Hin; log_member Hin;
    match goal with
    | H : _ && _ = true |- _ =>
        apply andb_true_iff in H as [Hne%bool_decide_eq_true Ho]
    end; rewrite ?Ho; done.
Qed.

(** A pass that returns has built the [css] it leaves in the entry. *)
Lemma pass_returns_built :
  ran.2 = inr () →
  ∃ h cs, EvBuild h cs ∈ log ran.1 ∧ build w h cs = inr (css (context ran.1)).
Proof.
  run_pass; intros Hr; try discriminate Hr; do 2 eexists;
    (split; [|eassumption]); repeat constructor.
Qed.

(** A pass on an entry without compiler starts with [createCompiler]. *)
Lemma pass_setup_log :
  compiler c = None →
  ∃ rest, log ran.1 = EvClearRequireCache (fullRebuildPaths c)
                      :: EvCompile (req_root rq) (inputBasePath w rq) :: rest.
Proof. intros Hc. run_pass; by eexists. Qed.

(** The clock after the pass is the one the loop computes, or the old
    one when the setup throws. *)
Lemma pass_clock :
  mtimes (context ran.1) = mtimes c ∨
  mtimes (context ran.1) = (decision w rq c).2.
Proof. run_pass; auto. Qed.

End pass_more.

(** ** Further properties of the plugin *)

(** X3.  The clock only learns: a pass never drops a recorded time, and
    the entry of a path after the pass is the one before it, unless the
    path was checked and exists, in which case it is the time [statSync]
    gave. *)
Theorem clock_only_learns plugin w rq st p :
  let r := OnceExit plugin w rq st in
  let c := entry rq st in
  (is_Some (mtimes c !! p) → is_Some (mtimes (context (res_pass r)) !! p)) ∧
  (mtimes (context (res_pass r)) !! p = mtimes c !! p ∨
   p ∈ checked_files w rq c ∧ is_Some (statSync w p) ∧
   mtimes (context (res_pass r)) !! p = statSync w p).
Proof.
  intros r c. subst r c. rewrite OnceExit_pass.
  destruct (pass_clock plugin w rq (entry rq st) (allocated st)) as [->| ->];
    [by split; [|left]|].
  unfold decision. rewrite track_files_clock.
  destruct (statSync w p) as [t|]; [|by split; [|left]].
  destruct (decide (p ∈ _)) as [Hin|Hnin].
  - split; [by eexists|]. right. repeat split; [done|by eexists].
  - by split; [|left].
Qed.

(** X4.  [compile] runs once when the entry has no compiler and once more
    when the strategy is full: never in an incremental pass on an entry
    that has a compiler, twice at most. *)
Theorem compile_runs_when_needed plugin w rq st :
  let r := OnceExit plugin w rq st in
  calls is_compile (log (res_pass r)) =
  (match compiler (entry rq st) with Some _ => 0 | None => 1 end) +
  (match rebuildStrategy (res_pass r) with Some full => 1 | _ => 0 end).
Proof. intros r. subst r. rewrite OnceExit_pass. apply pass_compile_calls. Qed.

(** X5.  The first pass on an input compiles the stylesheet twice.  The
    entry is new, the strategy is full whether the entry point exists or
    not, and the log is: [createCompiler] (require cache cleared for no
    path), the scan with the globs of the first handle, [createCompiler]
    again (require cache cleared for the paths just reported), and the
    build on the second handle; the first handle never builds. *)
Theorem first_pass_compiles_twice plugin w rq st gs :
  cache st !! inputFile rq = None →
  (compile w (req_root rq) (inputBasePath w rq)).2 = inr gs →
  let r := OnceExit plugin w rq st in
  rebuildStrategy (res_pass r) = Some full ∧
  calls is_compile (log (res_pass r)) = 2 ∧
  ∃ rest,
    log (res_pass r) =
      [EvClearRequireCache [];
       EvCompile (req_root rq) (inputBasePath w rq);
       EvScan (base plugin) gs;
       EvClearRequireCache (compile w (req_root rq) (inputBasePath w rq)).1;
       EvCompile (req_root rq) (inputBasePath w rq);
       EvBuild {| handle_id := S (allocated st); handle_css := req_root rq;
                  handle_base := inputBasePath w rq; globs := gs |}
               (scan_candidates (scan w (base plugin) gs))] ++ rest.
Proof.
  intros Hnew Hgs r. subst r.
  assert (entry rq st = factory) as He
    by (unfold entry, DefaultMap_get; by rewrite Hnew).
  rewrite OnceExit_pass, He.
  destruct (pass_fresh plugin w rq factory (allocated st) gs) as (Hs & rest & Hl);
    [done..|].
  split; [done|]. split; [|by exists rest].
  by rewrite pass_compile_calls, Hs.
Qed.

Lemma first_pass_compiles_twice_witness :
  let r := OnceExit Demo.plugin Demo.world Demo.request empty_store in
  rebuildStrategy (res_pass r) = Some full ∧
  calls is_compile (log (res_pass r)) = 2.
Proof.
  destruct (first_pass_compiles_twice Demo.plugin Demo.world Demo.request
              empty_store Demo.app_globs) as (Hs & Hc & _).
  - reflexivity.
  - reflexivity.
  - split; [exact Hs|exact Hc].
Defined.

(** A pass whose [compile] returns, on an entry whose paths are the ones
    this [compile] reports and whose entry point exists, settles it. *)
Lemma pass_settles plugin i c n gs :
  (compile i.1 (req_root i.2) (inputBasePath i.1 i.2)).2 = inr gs →
  is_Some (statSync i.1 (inputFile i.2)) →
  tracked_paths i.1 i.2 c = (compile i.1 (req_root i.2) (inputBasePath i.1 i.2)).1 →
  settled i (context (pass_on plugin i.1 i.2 c n).1).
Proof.
  intros Hgs Hentry Hpaths.
  destruct (pass_paths_after plugin i.1 i.2 c n gs Hgs) as [[h Hh] Hp].
  destruct (pass_decision plugin i.1 i.2 c n) as [_ Hm]; [right; by eexists|].
  assert (fullRebuildPaths (context (pass_on plugin i.1 i.2 c n).1) =
          tracked_paths i.1 i.2 c) as Hp'.
  { rewrite Hp. by destruct (decision i.1 i.2 c).1. }
  split; [by eexists|]. intros file Hin.
  rewrite Hm. unfold decision. apply track_files_in_sync; [|by left].
  unfold checked_files in *. unfold tracked_paths at 1 in Hin.
  by rewrite Hh, Hp' in Hin.
Qed.

(** After a pass whose [compile] returns the entry is settled, or its
    paths are the ones this [compile] reports. *)
Lemma pass_settles_or_stable plugin i c n gs :
  (compile i.1 (req_root i.2) (inputBasePath i.1 i.2)).2 = inr gs →
  let c1 := context (pass_on plugin i.1 i.2 c n).1 in
  settled i c1 ∨
  tracked_paths i.1 i.2 c1 = (compile i.1 (req_root i.2) (inputBasePath i.1 i.2)).1.
Proof.
  intros Hgs c1. subst c1.
  destruct (pass_paths_after plugin i.1 i.2 c n gs Hgs) as [[h Hh] Hp].
  destruct (pass_decision plugin i.1 i.2 c n) as [_ Hm]; [right; by eexists|].
  destruct (decision i.1 i.2 c).1 eqn:Hd.
  - right. unfold tracked_paths at 1. by rewrite Hh.
  - left. unfold decision in Hd, Hm.
    destruct (track_files_quiet _ _ _ _ _ Hd) as [_ Hquiet].
    rewrite track_files_incremental in Hm by done. simpl in Hm.
    split; [by eexists|]. intros file Hin. rewrite Hm. apply Hquiet.
    unfold checked_files in *. unfold tracked_paths at 1 in Hin.
    by rewrite Hh, Hp in Hin.
Qed.

Lemma unchanged_refl i c : unchanged (checked_files i.1 i.2 c) i i.
Proof.
  split; [done|split; [done|]]. intros file Hin. unfold checked_files.
  rewrite elem_of_app. by left.
Qed.

(** X6.  Whatever the cache holds, repeating one invocation settles
    within two passes when the entry point exists and [compile] returns:
    the third pass and every later one is incremental and does not call
    [compile].  (The second may still be full: a full rebuild records the
    times of newly reported paths one pass later.) *)
Theorem settles_within_two_passes plugin i n st gs :
  is_Some (statSync i.1 (inputFile i.2)) →
  (compile i.1 (req_root i.2) (inputBasePath i.1 i.2)).2 = inr gs →
  Forall (λ r, rebuildStrategy (res_pass r) = Some incremental ∧
               calls is_compile (log (res_pass r)) = 0)
         (drop 2 (invocations plugin (replicate n i) st)).
Proof.
  intros Hentry Hgs. destruct n as [|[|n]]; try by constructor.
  change (replicate (S (S n)) i) with (i :: i :: replicate n i).
  rewrite !invocations_cons. unfold drop.
  pose proof (OnceExit_entry plugin i.1 i.2 st i.2 eq_refl) as He1.
  pose proof (OnceExit_entry plugin i.1 i.2
                (res_store (OnceExit plugin i.1 i.2 st)) i.2 eq_refl) as He2.
  assert (settled i (entry i.2 (res_store (OnceExit plugin i.1 i.2
                       (res_store (OnceExit plugin i.1 i.2 st)))))) as Hsettled.
  { rewrite He2, OnceExit_pass, He1, OnceExit_pass.
    destruct (pass_settles_or_stable plugin i (entry i.2 st) (allocated st) gs Hgs)
      as [Hs|Hp].
    - destruct (settled_pass plugin i _
                  (allocated (res_store (OnceExit plugin i.1 i.2 st))) Hs)
        as (_ & _ & H3 & H4 & H5 & _).
      by eapply settled_fields.
    - by eapply pass_settles. }
  eapply Forall_impl.
  - apply (settled_invocations plugin i (replicate n i)); [|exact Hsettled].
    apply Forall_replicate, unchanged_refl.
  - intros r (? & ? & _). done.
Qed.

Lemma settles_within_two_passes_witness :
  Forall (λ r, rebuildStrategy (res_pass r) = Some incremental ∧
               calls is_compile (log (res_pass r)) = 0)
         (drop 2 (invocations Demo.plugin
                    (replicate 4 (Demo.grown, Demo.request)) Demo.warm)).
Proof.
  apply (settles_within_two_passes Demo.plugin (Demo.grown, Demo.request) 4
           Demo.warm Demo.app_globs).
  - exists 101%Z. reflexivity.
  - reflexivity.
Defined.

(** X7.  A [compile] error during a full rebuild is reported once.  The
    pass that meets it throws, but it has already recorded the new times
    and keeps the old handle; when the paths [compile] reported before
    throwing were already checked and the entry point exists, the next
    pass on the same disk is incremental, does not call [compile], and
    builds on the old handle. *)
Theorem compile_error_is_reported_once plugin w rq st h e :
  compiler (entry rq st) = Some h →
  (decision w rq (entry rq st)).1 = full →
  (compile w (req_root rq) (inputBasePath w rq)).2 = inl e →
  (compile w (req_root rq) (inputBasePath w rq)).1 ⊆ checked_files w rq (entry rq st) →
  is_Some (statSync w (inputFile rq)) →
  let r1 := OnceExit plugin w rq st in
  let r2 := OnceExit plugin w rq (res_store r1) in
  res_outcome r1 = inl e ∧
  rebuildStrategy (res_pass r2) = Some incremental ∧
  calls is_compile (log (res_pass r2)) = 0 ∧
  compiler (context (res_pass r2)) = Some h ∧
  ∃ rest, log (res_pass r2) =
    EvScan (base plugin) (globs h)
    :: EvBuild h (scan_candidates (scan w (base plugin) (globs h))) :: rest.
Proof.
  intros Hh Hd He Hsub Hentry r1 r2. subst r1 r2.
  rewrite !OnceExit_pass, OnceExit_outcome.
  rewrite (OnceExit_entry plugin w rq st rq eq_refl), OnceExit_pass.
  set (c := entry rq st) in *. set (n := allocated st).
  destruct (pass_recreate_throws plugin w rq c n h e Hh Hd He) as (Hr & Hc & Hp).
  destruct (pass_decision plugin w rq c n) as [_ Hm]; [left; by eexists|].
  set (c1 := context (pass_on plugin w rq c n).1) in *.
  assert (settled (w, rq) c1) as Hs.
  { split; [by eexists|]. intros file Hin. simpl in *.
    rewrite Hm. unfold decision. apply track_files_in_sync; [|by left].
    unfold checked_files in Hin. unfold tracked_paths in Hin.
    rewrite Hc, Hp in Hin.
    rewrite !elem_of_app in Hin. destruct Hin as [Hin|[Hin|Hin]].
    - unfold checked_files. rewrite !elem_of_app. auto.
    - by apply Hsub.
    - unfold checked_files. rewrite !elem_of_app. auto. }
  set (n1 := allocated _).
  destruct (settled_pass plugin (w, rq) c1 n1 Hs) as (H1 & H2 & H3 & _).
  simpl in *. split; [done|]. split; [done|]. split; [done|].
  split; [congruence|].
  apply pass_incremental_log; [done|]. 
  destruct (pass_decision plugin w rq c1 n1) as [Hs' _]; [left; by eexists|].
  congruence.
Qed.

Lemma compile_error_is_reported_once_witness :
  let r1 := OnceExit Demo.plugin Demo.invalid Demo.request Demo.warm in
  let r2 := OnceExit Demo.plugin Demo.invalid Demo.request (res_store r1) in
  res_outcome r1 = inl "CssSyntaxError" ∧
  rebuildStrategy (res_pass r2) = Some incremental ∧
  calls is_compile (log (res_pass r2)) = 0 ∧
  compiler (context (res_pass r2)) = Some Demo.handle.
Proof.
  destruct (compile_error_is_reported_once Demo.plugin Demo.invalid
              Demo.request Demo.warm Demo.handle "CssSyntaxError")
    as (H1 & H2 & H3 & H4 & _).
  - vm_compute. reflexivity.
  - vm_compute. reflexivity.
  - reflexivity.
  - intros f Hf. vm_compute in Hf. vm_compute.
    apply elem_of_cons in Hf as [->|Hf]; [constructor|].
    by apply elem_of_nil in Hf.
  - exists 100%Z. reflexivity.
  - split; [exact H1|]. split; [exact H2|]. split; [exact H3|exact H4].
Defined.

Example stale_css_after_compile_error :
  let r1 := OnceExit Demo.plugin Demo.invalid Demo.request Demo.warm in
  let r2 := OnceExit Demo.plugin Demo.invalid Demo.request (res_store r1) in
  res_outcome r1 = inl "CssSyntaxError" ∧
  res_outcome r2 = inr () ∧ root (res_pass r2) = "min:flex p-4".
Proof. vm_compute. done. Qed.

(** X8.  A setup that throws caches no failure.  The pass ends with the
    error of [compile] before any scan or build; the messages and the
    root are as PostCSS handed them over; the entry keeps its clock and
    its CSS pair and still has no compiler.  The next pass on the input
    therefore starts with [createCompiler] again. *)
Theorem failed_setup_is_retried plugin w rq w2 rq2 st e :
  compiler (entry rq st) = None →
  (compile w (req_root rq) (inputBasePath w rq)).2 = inl e →
  inputFile rq2 = inputFile rq →
  let r1 := OnceExit plugin w rq st in
  let r2 := OnceExit plugin w2 rq2 (res_store r1) in
  let c1 := entry rq2 (res_store r1) in
  res_outcome r1 = inl e ∧ rebuildStrategy (res_pass r1) = None ∧
  messages (res_pass r1) = req_messages rq ∧ root (res_pass r1) = req_root rq ∧
  calls is_scan (log (res_pass r1)) = 0 ∧ calls is_build (log (res_pass r1)) = 0 ∧
  compiler c1 = None ∧ mtimes c1 = mtimes (entry rq st) ∧
  css c1 = css (entry rq st) ∧ optimizedCss c1 = optimizedCss (entry rq st) ∧
  ∃ rest, log (res_pass r2) =
    EvClearRequireCache (compile w (req_root rq) (inputBasePath w rq)).1
    :: EvCompile (req_root rq2) (inputBasePath w2 rq2) :: rest.
Proof.
  intros Hc He Hsame r1 r2 c1. subst r1 r2 c1.
  rewrite (OnceExit_entry plugin w rq st rq2 Hsame).
  rewrite OnceExit_outcome, !OnceExit_pass.
  rewrite (OnceExit_entry plugin w rq st rq2 Hsame), OnceExit_pass.
  destruct (pass_setup_throws plugin w rq (entry rq st) (allocated st) e Hc He)
    as (H1 & H2 & _ & H4 & H5).
  destruct (pass_setup_throws_frame plugin w rq (entry rq st) (allocated st) e
              Hc He) as (F1 & F2 & F3 & F4 & F5 & F6 & F7).
  do 10 (split; [done|]).
  rewrite <- F3. by apply pass_setup_log.
Qed.

Lemma failed_setup_is_retried_witness :
  let r1 := OnceExit Demo.plugin Demo.invalid Demo.request empty_store in
  res_outcome r1 = inl "CssSyntaxError" ∧
  rebuildStrategy (res_pass r1) = None ∧
  compiler (entry Demo.request (res_store r1)) = None.
Proof.
  destruct (failed_setup_is_retried Demo.plugin Demo.invalid Demo.request
              Demo.world Demo.request empty_store "CssSyntaxError")
    as (H1 & H2 & _ & _ & _ & _ & H3 & _).
  - reflexivity.
  - reflexivity.
  - reflexivity.
  - split; [exact H1|]. split; [exact H2|exact H3].
Defined.

(** X9.  The messages after a pass that gets to the scan are, in this
    order: the messages that were there, one dependency message for each
    path the entry tracked when the loop ran, one for each file the
    scanner read, and one dir-dependency message for each glob of the
    scanner, all with [result.opts.from] as parent.  In a full rebuild
    the paths are those of the handle that is replaced, and the scanner
    was given its globs: what the new [compile] reports is in the
    messages of the next pass only.  When the setup throws no message is
    added. *)
Theorem messages_are_the_manifest plugin w rq st :
  let r := OnceExit plugin w rq st in
  let c := entry rq st in
  let scanner := scan w (base plugin) (scanned_globs w rq c) in
  match rebuildStrategy (res_pass r) with
  | None => messages (res_pass r) = req_messages rq
  | Some _ =>
      messages (res_pass r) =
        req_messages rq
        ++ (file_message rq <$> tracked_paths w rq c)
        ++ (file_message rq <$> scan_files scanner)
        ++ (glob_message rq <$> scan_globs scanner)
  end.
Proof.
  intros r c scanner. subst r c scanner. rewrite OnceExit_pass.
  apply pass_messages.
Qed.

Example new_import_is_reported_one_pass_later :
  let r1 := OnceExit Demo.plugin Demo.grown Demo.request Demo.warm in
  let r2 := OnceExit Demo.plugin Demo.grown Demo.request (res_store r1) in
  fullRebuildPaths (context (res_pass r1)) = ["/app/b.css"; "/app/c.css"] ∧
  dependency_files (messages (res_pass r1)) = ["/app/b.css"; "/app/index.html"] ∧
  dependency_files (messages (res_pass r2)) =
    ["/app/b.css"; "/app/c.css"; "/app/index.html"].
Proof. vm_compute. done. Qed.

(** X10.  A pass that throws, in [createCompiler] or in the build, leaves
    the PostCSS root as it was and the CSS pair of the entry as it was. *)
Theorem thrown_pass_keeps_root_and_css plugin w rq st e :
  let r := OnceExit plugin w rq st in
  res_outcome r = inl e →
  root (res_pass r) = req_root rq ∧
  css (entry rq (res_store r)) = css (entry rq st) ∧
  optimizedCss (entry rq (res_store r)) = optimizedCss (entry rq st).
Proof.
  intros r Hr. subst r.
  rewrite (OnceExit_entry plugin w rq st rq eq_refl), OnceExit_pass.
  rewrite OnceExit_outcome in Hr.
  split; [by eapply pass_error_keeps_root|by eapply pass_error_keeps_css].
Qed.

Lemma thrown_pass_keeps_root_and_css_witness :
  let r := OnceExit Demo.plugin Demo.invalid Demo.request Demo.warm in
  root (res_pass r) = req_root Demo.request ∧
  css (entry Demo.request (res_store r)) = css (entry Demo.request Demo.warm) ∧
  optimizedCss (entry Demo.request (res_store r)) =
    optimizedCss (entry Demo.request Demo.warm).
Proof.
  apply (thrown_pass_keeps_root_and_css Demo.plugin Demo.invalid Demo.request
           Demo.warm "CssSyntaxError").
  vm_compute. reflexivity.
Defined.

Lemma empty_store_in_step plugin t : store_in_step plugin t empty_store.
Proof. intros key c H. simpl in H. by rewrite lookup_empty in H. Qed.

Lemma entry_in_step plugin t rq st :
  store_in_step plugin t st → in_step plugin t (entry rq st).
Proof.
  intros Hst. unfold entry, DefaultMap_get.
  destruct (cache st !! inputFile rq) as [c|] eqn:E; simpl; [by eapply Hst|].
  by left.
Qed.

Lemma OnceExit_in_step plugin t w rq st :
  truthy (optimize plugin) = true → transform w = t →
  store_in_step plugin t st →
  store_in_step plugin t (res_store (OnceExit plugin w rq st)).
Proof.
  intros Ho Ht Hst key c Hkey.
  destruct (decide (key = inputFile rq)) as [->|Hne].
  - rewrite OnceExit_lookup in Hkey. injection Hkey as Hc. subst c.
    apply (pass_in_step plugin w rq (entry rq st) (allocated st) t Ho Ht).
    by apply entry_in_step.
  - rewrite OnceExit_other in Hkey by done. by eapply Hst.
Qed.

(** X11.  With [optimize] truthy and one transform throughout, the CSS a
    pass emits is never stale.  Starting from a store whose CSS pairs are
    in step (the empty store is), every pass that returns emits the
    transform of the CSS its own build returned; the one exception is an
    empty build result on an entry on which nothing else was built yet,
    which is emitted as it is. *)
Theorem emitted_css_is_never_stale plugin t l st :
  truthy (optimize plugin) = true →
  Forall (λ i, transform i.1 = t) l →
  store_in_step plugin t st →
  Forall2 (λ i r,
      res_outcome r = inr () →
      ∃ h cs built,
        EvBuild h cs ∈ log (res_pass r) ∧ build i.1 h cs = inr built ∧
        (root (res_pass r) =
           t (transform_options (minify_of (optimize plugin))) built ∨
         built = "" ∧ root (res_pass r) = ""))
    l (invocations plugin l st).
Proof.
  intros Ho Hl. revert st.
  induction Hl as [|i l Ht _ IH]; intros st Hst; [constructor|].
  rewrite invocations_cons. constructor.
  - rewrite OnceExit_outcome, OnceExit_pass. intros Hr.
    destruct (pass_returns_built plugin i.1 i.2 (entry i.2 st) (allocated st) Hr)
      as (h & cs & Hin & Hb).
    destruct (pass_in_step plugin i.1 i.2 (entry i.2 st) (allocated st) t Ho Ht)
      as [Hstep Hroot]; [by apply entry_in_step|].
    exists h, cs, (css (context (pass_on plugin i.1 i.2 (entry i.2 st)
                                   (allocated st)).1)).
    split; [done|]. split; [done|]. rewrite (Hroot Hr).
    destruct Hstep as [[-> ->]|Hstep]; [by right|by left].
  - apply IH. by apply OnceExit_in_step.
Qed.

Lemma emitted_css_is_never_stale_witness :
  Forall2 (λ i r,
      res_outcome r = inr () →
      ∃ h cs built,
        EvBuild h cs ∈ log (res_pass r) ∧ build i.1 h cs = inr built ∧
        (root (res_pass r) =
           transform Demo.world
             (transform_options (minify_of (optimize Demo.plugin))) built ∨
         built = "" ∧ root (res_pass r) = ""))
    [(Demo.world, Demo.request); (Demo.touched, Demo.request);
     (Demo.blank, Demo.request)]
    (invocations Demo.plugin
       [(Demo.world, Demo.request); (Demo.touched, Demo.request);
        (Demo.blank, Demo.request)] empty_store).
Proof.
  apply (emitted_css_is_never_stale Demo.plugin (transform Demo.world)).
  - reflexivity.
  - repeat constructor.
  - apply empty_store_in_step.
Defined.

(** X12.  The transform is called at most once in a pass, and only when
    [optimize] is truthy and the build returned a CSS other than the
    cached one.  Its input is that CSS, its options are fixed but for
    [minify], which is [true] for [optimize: true] and [optimize.minify]
    (by default [false]) for an object, and its result is what the pass
    caches and emits. *)
Theorem transform_call plugin w rq st o input :
  let r := OnceExit plugin w rq st in
  EvTransform o input ∈ log (res_pass r) →
  truthy (optimize plugin) = true ∧
  t_minify o = match optimize plugin with
               | OptimizeBool _ => true
               | OptimizeObject m => default false m
               end ∧
  t_filename o = "input.css" ∧ t_safari o = 1049600%Z ∧
  t_include o = Nesting ∧ t_exclude o = LogicalProperties ∧
  t_errorRecovery o = true ∧ t_sourceMap o = false ∧
  input = css (context (res_pass r)) ∧ input ≠ css (entry rq st) ∧
  optimizedCss (context (res_pass r)) = transform w o input ∧
  root (res_pass r) = transform w o input ∧
  res_outcome r = inr () ∧
  calls is_transform (log (res_pass r)) = 1.
Proof.
  intros r Hin. subst r. rewrite OnceExit_outcome, OnceExit_pass in *.
  destruct (pass_transform_event plugin w rq _ _ o input Hin)
    as (H1 & -> & H3 & H4 & H5 & H6 & H7 & H8).
  repeat split; try done. by destruct (optimize plugin).
Qed.

Lemma transform_call_witness :
  let r := OnceExit Demo.plugin Demo.world Demo.request empty_store in
  root (res_pass r) =
    transform Demo.world (transform_options (Some true)) "flex p-4" ∧
  calls is_transform (log (res_pass r)) = 1.
Proof.
  destruct (transform_call Demo.plugin Demo.world Demo.request empty_store
              (transform_options (Some true)) "flex p-4")
    as (_ & _ & _ & _ & _ & _ & _ & _ & _ & _ & _ & Hroot & _ & Hcalls).
  - vm_compute. repeat constructor.
  - split; [exact Hroot|exact Hcalls].
Defined.

Example optimize_object_without_minify :
  let plugin := tailwindcss Demo.world
                  (Some {| opt_base := None;
                           opt_optimize := Some (OptimizeObject None) |}) in
  let r := OnceExit plugin Demo.world Demo.request empty_store in
  calls is_transform (log (res_pass r)) = 1 ∧ root (res_pass r) = "flex p-4".
Proof. vm_compute. done. Qed.

(** X13.  An incremental pass on an entry that has a compiler writes
    nothing of the entry but its CSS pair: the handle, the tracked paths
    and the clock are the ones it found, and no handle is allocated. *)
Theorem incremental_pass_touches_the_css_only plugin w rq st h :
  let r := OnceExit plugin w rq st in
  compiler (entry rq st) = Some h →
  rebuildStrategy (res_pass r) = Some incremental →
  compiler (context (res_pass r)) = Some h ∧
  fullRebuildPaths (context (res_pass r)) = fullRebuildPaths (entry rq st) ∧
  mtimes (context (res_pass r)) = mtimes (entry rq st) ∧
  allocated (res_store r) = allocated st.
Proof.
  intros r Hh Hs. subst r. rewrite OnceExit_pass in *.
  change (allocated (res_store (OnceExit plugin w rq st)))
    with (fresh (pass_on plugin w rq (entry rq st) (allocated st)).1).
  destruct (pass_decision plugin w rq (entry rq st) (allocated st))
    as [Hs' Hm]; [left; by eexists|].
  assert ((decision w rq (entry rq st)).1 = incremental) as Hd by congruence.
  destruct (pass_incremental plugin w rq _ (allocated st) h Hh Hd)
    as (H1 & H2 & H3 & _).
  repeat split; try done. rewrite Hm. unfold decision in *.
  destruct (track_files_quiet _ _ _ _ _ Hd) as [_ Hquiet].
  by rewrite track_files_incremental.
Qed.

Lemma incremental_pass_touches_the_css_only_witness :
  let r := OnceExit Demo.plugin Demo.blank Demo.request Demo.warm in
  compiler (context (res_pass r)) = Some Demo.handle ∧
  fullRebuildPaths (context (res_pass r)) =
    fullRebuildPaths (entry Demo.request Demo.warm) ∧
  mtimes (context (res_pass r)) = mtimes (entry Demo.request Demo.warm) ∧
  allocated (res_store r) = allocated Demo.warm.
Proof.
  apply (incremental_pass_touches_the_css_only Demo.plugin Demo.blank
           Demo.request Demo.warm Demo.handle).
  - vm_compute. reflexivity.
  - vm_compute. reflexivity.
Defined.

(** ** [DefaultMap] *)

(** X14.  [DefaultMap.get] memoises: the value it returns is the one
    stored under the key afterwards, a second [get] returns it again and
    leaves the map alone, no other key is touched, and a value that is
    already there is returned without the map being written. *)
Theorem DefaultMap_get_memoises key (m : gmap string Context) :
  let got := DefaultMap_get key m in
  got.2 !! key = Some got.1 ∧
  DefaultMap_get key got.2 = got ∧
  (∀ k, k ≠ key → got.2 !! k = m !! k) ∧
  match m !! key with
  | Some value => got = (value, m)
  | None => got = (factory, <[key := factory]> m)
  end.
Proof.
  intros got. subst got. unfold DefaultMap_get.
  destruct (m !! key) as [value|] eqn:E; simpl.
  - rewrite E. repeat split; done.
  - rewrite lookup_insert_eq. repeat split; try done.
    intros k Hne. by rewrite lookup_insert_ne.
Qed.

(** ** [migrate] *)

(** X15.  [migrate] rewrites one file in place.  When it returns, the
    file at the resolved path existed, its new contents are what
    [migrateContents] made of the old ones (with the resolved path as
    [from]), every other file is as before, and no file was created. *)
Theorem migrate_rewrites_one_file tl file options disk :
  let fullPath := path_resolve tl (tool_cwd tl) file in
  let ran := migrate tl file options disk in
  ran.2 = inr () →
  ∃ contents migrated,
    disk !! fullPath = Some contents ∧
    migrateContents tl contents options (Some fullPath) = inr migrated ∧
    ran.1 !! fullPath = Some migrated ∧
    (∀ p, p ≠ fullPath → ran.1 !! p = disk !! p) ∧
    dom ran.1 = dom disk.
Proof.
  intros fullPath ran. subst ran. unfold migrate. fold fullPath.
  destruct (disk !! fullPath) as [contents|] eqn:E; [|done].
  destruct (migrateContents tl contents options (Some fullPath))
    as [e|migrated] eqn:Em; [done|].
  simpl. intros _. exists contents, migrated. repeat split; try done.
  - apply lookup_insert_eq.
  - intros p Hne. by rewrite lookup_insert_ne.
  - rewrite dom_insert_L.
    assert (fullPath ∈ dom disk) as Hin by (apply elem_of_dom; by eexists).
    apply set_eq. intros p. rewrite elem_of_union, elem_of_singleton.
    split; [intros [->|?]; done|by right].
Qed.

Lemma migrate_rewrites_one_file_witness :
  ∃ contents migrated,
    Demo.sources !! "/app/a.css" = Some contents ∧
    migrateContents Demo.tool contents {| newPrefix := None |}
      (Some "/app/a.css") = inr migrated ∧
    (migrate Demo.tool "a.css" {| newPrefix := None |} Demo.sources).1
      !! "/app/a.css" = Some migrated ∧
    (∀ p, p ≠ "/app/a.css" →
       (migrate Demo.tool "a.css" {| newPrefix := None |} Demo.sources).1 !! p =
       Demo.sources !! p) ∧
    dom (migrate Demo.tool "a.css" {| newPrefix := None |} Demo.sources).1 =
    dom Demo.sources.
Proof.
  apply (migrate_rewrites_one_file Demo.tool "a.css" {| newPrefix := None |}
           Demo.sources).
  vm_compute. reflexivity.
Defined.

(** X16.  [migrate] writes nothing when it throws: a file that is not
    there, or contents the codemods refuse, leave the disk as it was. *)
Theorem migrate_failure_keeps_disk tl file options disk e :
  let fullPath := path_resolve tl (tool_cwd tl) file in
  let ran := migrate tl file options disk in
  ran.2 = inl e →
  ran.1 = disk ∧
  (disk !! fullPath = None ∨
   ∃ contents, disk !! fullPath = Some contents ∧
               migrateContents tl contents options (Some fullPath) = inl e).
Proof.
  intros fullPath ran. subst ran. unfold migrate. fold fullPath.
  destruct (disk !! fullPath) as [contents|] eqn:E; [|by split; [|left]].
  destruct (migrateContents tl contents options (Some fullPath))
    as [e'|migrated] eqn:Em; [|done].
  simpl. intros [= ->]. split; [done|]. right. by exists contents.
Qed.

Lemma migrate_failure_keeps_disk_witness :
  (migrate Demo.tool "empty.css" {| newPrefix := None |} Demo.sources).1 =
  Demo.sources.
Proof.
  apply (migrate_failure_keeps_disk Demo.tool "empty.css" {| newPrefix := None |}
           Demo.sources "CssSyntaxError").
  vm_compute. reflexivity.
Defined.

Example migrate_missing_file :
  migrate Demo.tool "nope.css" {| newPrefix := None |} Demo.sources =
  (Demo.sources, inl "ENOENT").
Proof. reflexivity. Qed.

(** ** The handle that builds *)

Lemma pass_build_event plugin w rq c n h cs :
  EvBuild h cs ∈ log (pass_on plugin w rq c n).1 →
  compiler (context (pass_on plugin w rq c n).1) = Some h ∧
  cs = scan_candidates (scan w (base plugin) (scanned_globs w rq c)) ∧
  calls is_build (log (pass_on plugin w rq c n).1) = 1.
Proof.
  unfold scanned_globs.
  run_pass; intros Hin; log_member Hin;
    repeat match goal with
      | H : (compile _ _ _).2 = _ |- _ => rewrite H
      end; done.
Qed.

(** X17.  A pass builds at most once, on the handle the cache holds when
    the pass is over, valid or thrown, and with the candidates of this
    pass's scan: after a full rebuild the new handle builds from
    candidates found under the globs of the handle it replaces. *)
Theorem build_runs_on_the_cached_handle plugin w rq st h cs :
  let r := OnceExit plugin w rq st in
  EvBuild h cs ∈ log (res_pass r) →
  compiler (entry rq (res_store r)) = Some h ∧
  cs = scan_candidates
         (scan w (base plugin) (scanned_globs w rq (entry rq st))) ∧
  calls is_build (log (res_pass r)) = 1.
Proof.
  intros r Hin. subst r.
  rewrite (OnceExit_entry plugin w rq st rq eq_refl).
  rewrite OnceExit_pass in *. by apply pass_build_event.
Qed.

Lemma build_runs_on_the_cached_handle_witness :
  let r := OnceExit Demo.plugin Demo.world Demo.request empty_store in
  compiler (entry Demo.request (res_store r)) = Some Demo.handle ∧
  calls is_build (log (res_pass r)) = 1.
Proof.
  destruct (build_runs_on_the_cached_handle Demo.plugin Demo.world Demo.request
              empty_store Demo.handle ["flex"; "p-4"]) as (H1 & _ & H2).
  - vm_compute. repeat constructor.
  - split; [exact H1|exact H2].
Defined.

(** ** The scan and the build of a pass *)

(** The log of a pass, by strategy: a scan under the globs of the handle
    in place and then a build of the scanned candidates, unless
    [createCompiler] threw before. *)
Lemma pass_scan_then_build plugin w rq c n :
  let ran := pass_on plugin w rq c n in
  let sg := scanned_globs w rq c in
  let cs := scan_candidates (scan w (base plugin) sg) in
  let thrown := ∃ e, (compile w (req_root rq) (inputBasePath w rq)).2 = inl e ∧
                     ran.2 = inl e in
  let reached := calls is_scan (log ran.1) = 1 ∧
                 ∃ h l1 l2 l3,
                   log ran.1 = l1 ++ EvScan (base plugin) sg :: l2
                                  ++ EvBuild h cs :: l3 in
  match rebuildStrategy ran.1 with
  | None => thrown ∧ calls is_scan (log ran.1) = 0 ∧ calls is_build (log ran.1) = 0
  | Some incremental => reached
  | Some full =>
      reached ∨
      thrown ∧ calls is_scan (log ran.1) = 1 ∧ calls is_build (log ran.1) = 0
  end.
Proof.
  unfold scanned_globs.
  run_pass;
    repeat match goal with
      | H : (compile _ _ _).2 = _ |- _ => rewrite H
      end;
    lazymatch goal with
    | |- (∃ e, _) ∧ _ => split; [by eexists|done]
    | |- _ ∨ _ =>
        first
          [ right; split; [by eexists|done]
          | left; split; [done|];
            first [ by eexists _, [], [_; _], _
                  | by eexists _, [_; _], [_; _], _ ] ]
    | |- _ =>
        split; [done|];
        first [ by eexists _, [], [], _
              | by eexists _, [_; _], [], _ ]
    end.
Qed.

(** C6, amended.  Whatever strategy a pass chooses, and also when no
    tracked file changed, it scans once, under the globs of the handle in
    place, and reports the files and globs of the scanner; it then builds
    once, on the handle the entry holds afterwards and with the
    candidates the scan returned, and the result or the error of that
    build is the one of the pass.  The scan and the build are left out
    only when [createCompiler] throws: a pass whose first
    [createCompiler] throws chooses no strategy and neither scans nor
    builds, and a full pass whose [createCompiler] throws has scanned and
    does not build. *)
Theorem scan_and_build_always_run plugin w rq st :
  let r := OnceExit plugin w rq st in
  let c := entry rq st in
  let scanner := scan w (base plugin) (scanned_globs w rq c) in
  let scans := calls is_scan (log (res_pass r)) in
  let builds := calls is_build (log (res_pass r)) in
  let thrown := ∃ e, (compile w (req_root rq) (inputBasePath w rq)).2 = inl e ∧
                     res_outcome r = inl e in
  let scanned :=
    scans = 1 ∧
    messages (res_pass r) =
      req_messages rq
      ++ (file_message rq <$> tracked_paths w rq c)
      ++ (file_message rq <$> scan_files scanner)
      ++ (glob_message rq <$> scan_globs scanner) in
  let built :=
    builds = 1 ∧
    ∃ h l1 l2 l3,
      log (res_pass r) =
        l1 ++ EvScan (base plugin) (scanned_globs w rq c) :: l2
           ++ EvBuild h (scan_candidates scanner) :: l3 ∧
      compiler (context (res_pass r)) = Some h ∧
      match build w h (scan_candidates scanner) with
      | inl e => res_outcome r = inl e
      | inr css' => res_outcome r = inr () ∧ css (context (res_pass r)) = css'
      end in
  match rebuildStrategy (res_pass r) with
  | None => thrown ∧ scans = 0 ∧ builds = 0
  | Some incremental => scanned ∧ built
  | Some full => scanned ∧ (built ∨ thrown ∧ builds = 0)
  end.
Proof.
  intros r c scanner scans builds thrown scanned built.
  subst r c scanner scans builds thrown scanned built.
  rewrite OnceExit_pass, OnceExit_outcome.
  set (c := entry rq st). set (n := allocated st).
  pose proof (pass_scan_then_build plugin w rq c n) as Hlog.
  pose proof (pass_messages plugin w rq c n) as Hmsg.
  unfold manifest in Hmsg. simpl in Hlog.
  assert (∀ h l1 l2 l3,
    log (pass_on plugin w rq c n).1 =
      l1 ++ EvScan (base plugin) (scanned_globs w rq c) :: l2
         ++ EvBuild h (scan_candidates
                         (scan w (base plugin) (scanned_globs w rq c))) :: l3 →
    calls is_build (log (pass_on plugin w rq c n).1) = 1 ∧
    ∃ h l1 l2 l3,
      log (pass_on plugin w rq c n).1 =
        l1 ++ EvScan (base plugin) (scanned_globs w rq c) :: l2
           ++ EvBuild h (scan_candidates
                           (scan w (base plugin) (scanned_globs w rq c))) :: l3 ∧
      compiler (context (pass_on plugin w rq c n).1) = Some h ∧
      match build w h (scan_candidates
                         (scan w (base plugin) (scanned_globs w rq c))) with
      | inl e => (pass_on plugin w rq c n).2 = inl e
      | inr css' => (pass_on plugin w rq c n).2 = inr () ∧
                    css (context (pass_on plugin w rq c n).1) = css'
      end) as Hbuilt.
  { intros h l1 l2 l3 Heq.
    assert (EvBuild h (scan_candidates
                         (scan w (base plugin) (scanned_globs w rq c)))
            ∈ log (pass_on plugin w rq c n).1) as Hin.
    { rewrite Heq, elem_of_app, elem_of_cons, elem_of_app, elem_of_cons. auto. }
    destruct (pass_build_event plugin w rq c n h _ Hin) as (Hc & _ & Hb).
    split; [done|]. exists h, l1, l2, l3. split; [done|]. split; [done|].
    destruct (build w h _) as [e|css'] eqn:E.
    - by destruct (pass_build_throws plugin w rq c n h _ e Hin E).
    - by destruct (pass_build_returns plugin w rq c n h _ css' Hin E). }
  destruct (rebuildStrategy (pass_on plugin w rq c n).1) as [[]|].
  - destruct Hlog as [[Hs (h & l1 & l2 & l3 & Heq)]|(Ht & Hs & Hb)].
    + split; [done|]. left. by eapply Hbuilt.
    + split; [done|]. by right.
  - destruct Hlog as [Hs (h & l1 & l2 & l3 & Heq)].
    split; [done|]. by eapply Hbuilt.
  - done.
Qed.

(** C6 as stated fails when [createCompiler] throws: on a new entry the
    pass neither scans nor builds, and on an entry with a compiler whose
    tracked file was saved again the pass is full, scans and does not
    build. *)
Lemma invalid_css_stops_before_the_build :
  let observe r := (rebuildStrategy (res_pass r),
                    calls is_scan (log (res_pass r)),
                    calls is_build (log (res_pass r)), res_outcome r) in
  observe (OnceExit Demo.plugin Demo.invalid Demo.request empty_store) =
    (None, 0, 0, inl "CssSyntaxError") ∧
  observe (OnceExit Demo.plugin Demo.invalid Demo.request Demo.warm) =
    (Some full, 1, 0, inl "CssSyntaxError").
Proof. vm_compute. done. Qed.

Example unchanged_project_scans_and_builds :
  let r := OnceExit Demo.plugin Demo.world Demo.request Demo.warm in
  rebuildStrategy (res_pass r) = Some incremental ∧
  log (res_pass r) =
    [EvScan "/app" Demo.app_globs; EvBuild Demo.handle ["flex"; "p-4"]] ∧
  css (context (res_pass r)) = "flex p-4".
Proof. vm_compute. done. Qed.
